(** * LocalCast viewer client: session state, frame metrics, audio scheduler

    A shallow embedding of the React client of LocalCast ([src/App.jsx] and the
    H.264 [ScreenView] component) together with the properties its
    specification states about it.

    Conventions of the embedding.
    - The [useState] and [useRef] cells of [App] that its socket handlers
      and its audio code read or write are fields of the state record; a
      setter call is an immediate field update. The cells that only drive
      the source picker, the quality preset and the fullscreen toggle
      ([socket], [sources], [selectedSource], [showSourcePicker],
      [isLoadingSources], [preset], [isFullscreen]) and the queue ref that
      is only ever emptied ([audioBufferQueueRef]) are left out.
    - A socket event, a user gesture or a platform callback is an [Event];
      the handler of an event is a function from the state to the new state
      and the list of effects it performed on the platform.
    - Whatever the platform answers while a handler runs (wall clock, device
      clock, constructor outcomes, [atob]) is read from an [Env] record that
      is delivered together with the event.
    - Device-clock times and buffer durations are exact rationals ([Q]); the
      rounding of IEEE doubles is not modelled. *)

From Stdlib Require Import ZArith QArith Qround Lqa Lia.
From Stdlib Require Import Strings.Byte.
From stdpp Require Import base option list strings.

Open Scope Z_scope.

(** ** JavaScript values and builtins *)

Module JS.

(** The values an identity field can hold: [null], [undefined] or a string. *)
Inductive value : Type :=
| Null
| Undefined
| Str (s : string).

#[global] Instance value_eq_dec : EqDecision value.
Proof. solve_decision. Defined.

(** [a === b] on the values above. *)
Definition strict_eq (a b : value) : bool := bool_decide (a = b).

(** [x || d] for a number [x]: zero is falsy. *)
Definition or_default (x d : Z) : Z := if x =? 0 then d else x.

(** [Math.round]: nearest integer, ties towards +infinity. *)
Definition Math_round (q : Q) : Z := Qfloor (q + (1 # 2)).

(** [arr.slice(-n)]: the last [n] elements, all of them when there are fewer. *)
Definition slice_last {A : Type} (n : nat) (arr : list A) : list A :=
  drop (length arr - n) arr.

(** [a < b] on numbers. *)
Definition lt (a b : Q) : bool := negb (Qle_bool b a).

(** One element of an [Int16Array] view: two bytes, little endian, signed. *)
Definition int16_of_bytes (lo hi : byte) : Z :=
  let u := Z.of_N (Byte.to_N lo) + 256 * Z.of_N (Byte.to_N hi) in
  if u <? 32768 then u else u - 65536.

(** [new Int16Array(bytes.buffer)]: a [RangeError] (here [None]) when the
    byte length is odd. *)
Fixpoint Int16Array (bytes : list byte) : option (list Z) :=
  match bytes with
  | [] => Some []
  | [_] => None
  | lo :: hi :: rest =>
      match Int16Array rest with
      | Some t => Some (int16_of_bytes lo hi :: t)
      | None => None
      end
  end.

End JS.

(** ** The application component ([src/App.jsx]) *)

Module App.

(** State of a Web Audio context as reported by [ctx.state]. *)
Inductive ctx_state : Type := suspended | running | closed.

#[global] Instance ctx_state_eq_dec : EqDecision ctx_state.
Proof. solve_decision. Defined.

(** What [ctx.createBuffer] returns once the channel data is copied in. *)
Record AudioBuffer : Type := {
  numberOfChannels : Z;
  bufferLength : Z;
  bufferSampleRate : Z;
  channelData : list (list Q)
}.

(** [audioBuffer.duration], in seconds. *)
Definition duration (b : AudioBuffer) : Q :=
  inject_Z (bufferLength b) / inject_Z (bufferSampleRate b).

Record Message : Type := {
  text : string;
  type : string;
  timestamp : string
}.

Record FpsCounter : Type := { count : Z; lastTime : Z }.

Record FrameInfo : Type := { width : Z; height : Z; size : Z }.

(** Payloads of the socket events. *)
Record ConnectedData : Type := {
  client_id : JS.value;
  client_count : Z;
  current_sharer : JS.value;
  audio_available : bool;
  is_host : bool;
  is_sharing : bool
}.

Record FrameData : Type := {
  image : string;
  frame_width : Z;
  frame_height : Z;
  frame_size : Z
}.

Record AudioData : Type := {
  data : string;
  channels : Z;
  sampleRate : Z
}.

(** Platform answers available to a handler while it runs. *)
Record Env : Type := {
  dateNow : Z;                          (* Date.now(), milliseconds *)
  localeTime : string;                  (* new Date().toLocaleTimeString('ja-JP') *)
  ctxCurrentTime : Q;                   (* ctx.currentTime, seconds *)
  atob : string -> option (list byte);  (* None: atob throws *)
  createBufferThrows : bool;            (* ctx.createBuffer rejects its arguments *)
  newAudioContext : option ctx_state    (* None: the constructor throws *)
}.

(** The [useState] cells that describe the session. *)
Record Session : Type := {
  isConnected : bool;
  isSharing : bool;
  currentFrame : option string;
  clientCount : Z;
  clientId : JS.value;
  currentSharerId : JS.value;
  isHost : bool;
  audioAvailable : bool;
  messages : list Message
}.

(** Frame metrics: the published values and the refs behind them. *)
Record Metrics : Type := {
  fps : Z;
  frameInfo : FrameInfo;
  fpsCounterRef : FpsCounter;
  frameInfoRef : FrameInfo
}.

(** Audio cells: two [useState] flags and the refs of the scheduler. *)
Record Audio : Type := {
  isAudioEnabled : bool;
  audioUnlocked : bool;
  audioContextRef : option nat;
  nextPlayTimeRef : Q;
  isAudioEnabledRef : bool;
  playAudioChunkRef : bool;
  currentSharerIdRef : JS.value;
  clientIdRef : JS.value;
  audioInitializedRef : bool
}.

(** The whole component, with the part of the platform it owns:
    [contexts] lists the state of every [AudioContext] constructed so far
    (a context is named by its index), [pendingResume] the contexts whose
    [resume()] promise from [unlockAudio] has not settled yet. *)
Record State : Type := {
  session : Session;
  metrics : Metrics;
  audio : Audio;
  contexts : list ctx_state;
  pendingResume : list nat
}.


(** *** Field updates *)

Definition with_session (f : Session -> Session) (s : State) : State :=
  {| session := f (session s); metrics := metrics s; audio := audio s;
     contexts := contexts s; pendingResume := pendingResume s |}.

Definition with_metrics (f : Metrics -> Metrics) (s : State) : State :=
  {| session := session s; metrics := f (metrics s); audio := audio s;
     contexts := contexts s; pendingResume := pendingResume s |}.

Definition with_audio (f : Audio -> Audio) (s : State) : State :=
  {| session := session s; metrics := metrics s; audio := f (audio s);
     contexts := contexts s; pendingResume := pendingResume s |}.

Definition set_contexts (v : list ctx_state) (s : State) : State :=
  {| session := session s; metrics := metrics s; audio := audio s;
     contexts := v; pendingResume := pendingResume s |}.

Definition set_pendingResume (v : list nat) (s : State) : State :=
  {| session := session s; metrics := metrics s; audio := audio s;
     contexts := contexts s; pendingResume := v |}.

Definition setIsConnected (v : bool) : State -> State :=
  with_session (fun x =>
    {| isConnected := v; isSharing := isSharing x;
       currentFrame := currentFrame x; clientCount := clientCount x;
       clientId := clientId x; currentSharerId := currentSharerId x;
       isHost := isHost x; audioAvailable := audioAvailable x;
       messages := messages x |}).

Definition setIsSharing (v : bool) : State -> State :=
  with_session (fun x =>
    {| isConnected := isConnected x; isSharing := v;
       currentFrame := currentFrame x; clientCount := clientCount x;
       clientId := clientId x; currentSharerId := currentSharerId x;
       isHost := isHost x; audioAvailable := audioAvailable x;
       messages := messages x |}).

Definition setCurrentFrame (v : option string) : State -> State :=
  with_session (fun x =>
    {| isConnected := isConnected x; isSharing := isSharing x;
       currentFrame := v; clientCount := clientCount x;
       clientId := clientId x; currentSharerId := currentSharerId x;
       isHost := isHost x; audioAvailable := audioAvailable x;
       messages := messages x |}).

Definition setClientCount (v : Z) : State -> State :=
  with_session (fun x =>
    {| isConnected := isConnected x; isSharing := isSharing x;
       currentFrame := currentFrame x; clientCount := v;
       clientId := clientId x; currentSharerId := currentSharerId x;
       isHost := isHost x; audioAvailable := audioAvailable x;
       messages := messages x |}).

Definition setClientId (v : JS.value) : State -> State :=
  with_session (fun x =>
    {| isConnected := isConnected x; isSharing := isSharing x;
       currentFrame := currentFrame x; clientCount := clientCount x;
       clientId := v; currentSharerId := currentSharerId x;
       isHost := isHost x; audioAvailable := audioAvailable x;
       messages := messages x |}).

Definition setCurrentSharerId (v : JS.value) : State -> State :=
  with_session (fun x =>
    {| isConnected := isConnected x; isSharing := isSharing x;
       currentFrame := currentFrame x; clientCount := clientCount x;
       clientId := clientId x; currentSharerId := v;
       isHost := isHost x; audioAvailable := audioAvailable x;
       messages := messages x |}).

Definition setIsHost (v : bool) : State -> State :=
  with_session (fun x =>
    {| isConnected := isConnected x; isSharing := isSharing x;
       currentFrame := currentFrame x; clientCount := clientCount x;
       clientId := clientId x; currentSharerId := currentSharerId x;
       isHost := v; audioAvailable := audioAvailable x;
       messages := messages x |}).

Definition setAudioAvailable (v : bool) : State -> State :=
  with_session (fun x =>
    {| isConnected := isConnected x; isSharing := isSharing x;
       currentFrame := currentFrame x; clientCount := clientCount x;
       clientId := clientId x; currentSharerId := currentSharerId x;
       isHost := isHost x; audioAvailable := v;
       messages := messages x |}).

(** [setMessages(updater)]: the functional form of the setter. *)
Definition setMessages (f : list Message -> list Message) : State -> State :=
  with_session (fun x =>
    {| isConnected := isConnected x; isSharing := isSharing x;
       currentFrame := currentFrame x; clientCount := clientCount x;
       clientId := clientId x; currentSharerId := currentSharerId x;
       isHost := isHost x; audioAvailable := audioAvailable x;
       messages := f (messages x) |}).

Definition setFps (v : Z) : State -> State :=
  with_metrics (fun x =>
    {| fps := v; frameInfo := frameInfo x;
       fpsCounterRef := fpsCounterRef x; frameInfoRef := frameInfoRef x |}).

Definition setFrameInfo (v : FrameInfo) : State -> State :=
  with_metrics (fun x =>
    {| fps := fps x; frameInfo := v;
       fpsCounterRef := fpsCounterRef x; frameInfoRef := frameInfoRef x |}).

Definition set_fpsCounterRef (v : FpsCounter) : State -> State :=
  with_metrics (fun x =>
    {| fps := fps x; frameInfo := frameInfo x;
       fpsCounterRef := v; frameInfoRef := frameInfoRef x |}).

Definition set_frameInfoRef (v : FrameInfo) : State -> State :=
  with_metrics (fun x =>
    {| fps := fps x; frameInfo := frameInfo x;
       fpsCounterRef := fpsCounterRef x; frameInfoRef := v |}).

Definition setIsAudioEnabled (v : bool) : State -> State :=
  with_audio (fun x =>
    {| isAudioEnabled := v; audioUnlocked := audioUnlocked x;
       audioContextRef := audioContextRef x;
       nextPlayTimeRef := nextPlayTimeRef x;
       isAudioEnabledRef := isAudioEnabledRef x;
       playAudioChunkRef := playAudioChunkRef x;
       currentSharerIdRef := currentSharerIdRef x;
       clientIdRef := clientIdRef x;
       audioInitializedRef := audioInitializedRef x |}).

Definition setAudioUnlocked (v : bool) : State -> State :=
  with_audio (fun x =>
    {| isAudioEnabled := isAudioEnabled x; audioUnlocked := v;
       audioContextRef := audioContextRef x;
       nextPlayTimeRef := nextPlayTimeRef x;
       isAudioEnabledRef := isAudioEnabledRef x;
       playAudioChunkRef := playAudioChunkRef x;
       currentSharerIdRef := currentSharerIdRef x;
       clientIdRef := clientIdRef x;
       audioInitializedRef := audioInitializedRef x |}).

Definition set_audioContextRef (v : option nat) : State -> State :=
  with_audio (fun x =>
    {| isAudioEnabled := isAudioEnabled x; audioUnlocked := audioUnlocked x;
       audioContextRef := v;
       nextPlayTimeRef := nextPlayTimeRef x;
       isAudioEnabledRef := isAudioEnabledRef x;
       playAudioChunkRef := playAudioChunkRef x;
       currentSharerIdRef := currentSharerIdRef x;
       clientIdRef := clientIdRef x;
       audioInitializedRef := audioInitializedRef x |}).

Definition set_nextPlayTimeRef (v : Q) : State -> State :=
  with_audio (fun x =>
    {| isAudioEnabled := isAudioEnabled x; audioUnlocked := audioUnlocked x;
       audioContextRef := audioContextRef x;
       nextPlayTimeRef := v;
       isAudioEnabledRef := isAudioEnabledRef x;
       playAudioChunkRef := playAudioChunkRef x;
       currentSharerIdRef := currentSharerIdRef x;
       clientIdRef := clientIdRef x;
       audioInitializedRef := audioInitializedRef x |}).

Definition set_isAudioEnabledRef (v : bool) : State -> State :=
  with_audio (fun x =>
    {| isAudioEnabled := isAudioEnabled x; audioUnlocked := audioUnlocked x;
       audioContextRef := audioContextRef x;
       nextPlayTimeRef := nextPlayTimeRef x;
       isAudioEnabledRef := v;
       playAudioChunkRef := playAudioChunkRef x;
       currentSharerIdRef := currentSharerIdRef x;
       clientIdRef := clientIdRef x;
       audioInitializedRef := audioInitializedRef x |}).

Definition set_playAudioChunkRef (v : bool) : State -> State :=
  with_audio (fun x =>
    {| isAudioEnabled := isAudioEnabled x; audioUnlocked := audioUnlocked x;
       audioContextRef := audioContextRef x;
       nextPlayTimeRef := nextPlayTimeRef x;
       isAudioEnabledRef := isAudioEnabledRef x;
       playAudioChunkRef := v;
       currentSharerIdRef := currentSharerIdRef x;
       clientIdRef := clientIdRef x;
       audioInitializedRef := audioInitializedRef x |}).

Definition set_currentSharerIdRef (v : JS.value) : State -> State :=
  with_audio (fun x =>
    {| isAudioEnabled := isAudioEnabled x; audioUnlocked := audioUnlocked x;
       audioContextRef := audioContextRef x;
       nextPlayTimeRef := nextPlayTimeRef x;
       isAudioEnabledRef := isAudioEnabledRef x;
       playAudioChunkRef := playAudioChunkRef x;
       currentSharerIdRef := v;
       clientIdRef := clientIdRef x;
       audioInitializedRef := audioInitializedRef x |}).

Definition set_clientIdRef (v : JS.value) : State -> State :=
  with_audio (fun x =>
    {| isAudioEnabled := isAudioEnabled x; audioUnlocked := audioUnlocked x;
       audioContextRef := audioContextRef x;
       nextPlayTimeRef := nextPlayTimeRef x;
       isAudioEnabledRef := isAudioEnabledRef x;
       playAudioChunkRef := playAudioChunkRef x;
       currentSharerIdRef := currentSharerIdRef x;
       clientIdRef := v;
       audioInitializedRef := audioInitializedRef x |}).

Definition set_audioInitializedRef (v : bool) : State -> State :=
  with_audio (fun x =>
    {| isAudioEnabled := isAudioEnabled x; audioUnlocked := audioUnlocked x;
       audioContextRef := audioContextRef x;
       nextPlayTimeRef := nextPlayTimeRef x;
       isAudioEnabledRef := isAudioEnabledRef x;
       playAudioChunkRef := playAudioChunkRef x;
       currentSharerIdRef := currentSharerIdRef x;
       clientIdRef := clientIdRef x;
       audioInitializedRef := v |}).

(** *** Effects and events *)

(** What a handler does to the platform. *)
Inductive Effect : Type :=
| SourceStart (ctx : nat) (buffer : AudioBuffer) (when : Q)
    (* source.start(when) on a source holding buffer, connected to ctx *)
| Resume (ctx : nat)            (* ctx.resume() *)
| Close (ctx : nat)             (* ctx.close() *)
| Emit (command : string)       (* socket.emit(command) *)
| ConsoleError (what : string). (* console.error in a catch block *)

(** Everything that can make a handler of [App] run. *)
Inductive Event : Type :=
| Connect
| Disconnect
| Connected (d : ConnectedData)
| ClientCountUpdated (n : Z)
| Frame (d : FrameData)
| Stats (server_fps : Z)
| SharingStarted (sharer_id : JS.value) (target : string)
| SharingStopped
| SharingTakenOver
| ServerError (message : string)
| SettingsChanged (resolution_limit fps_text : string)
| AudioChunk (d : AudioData)
| AudioStarted
| AudioStopped
| AudioError (message : string)
| UnlockAudio                         (* gesture: onUnlockAudio *)
| ToggleAudio                         (* gesture: onToggleAudio *)
| ResumeSettled (ctx : nat) (fulfilled : bool)
    (* the promise of ctx.resume() made by unlockAudio settles *)
| ContextState (ctx : nat) (st : ctx_state).
    (* the platform moves a context to another state *)

(** *** Handlers *)

(** [addMessage], lines 194-197. *)
Definition addMessage (env : Env) (txt ty : string) : State -> State :=
  setMessages (fun prev =>
    JS.slice_last 50
      (prev ++ [{| text := txt; type := ty; timestamp := localeTime env |}])).

(** The state of the context behind a handle. *)
Definition state_of (s : State) (ctx : nat) : option ctx_state :=
  contexts s !! ctx.

(** Outcome of the decoding part of [playAudioChunk], lines 209-241. *)
Inductive Prepared : Type :=
| Thrown                      (* an exception reached the catch block *)
| Empty                       (* frameCount <= 0: plain return *)
| Ready (b : AudioBuffer).

Definition prepareBuffer (env : Env) (d : AudioData) : Prepared :=
  match atob env (data d) with
  | None => Thrown
  | Some bytes =>
      match JS.Int16Array bytes with
      | None => Thrown
      | Some int16 =>
          let float32 := map (fun x => (inject_Z x / 32768)%Q) int16 in
          let channels := JS.or_default (channels d) 2 in
          let sampleRate := JS.or_default (sampleRate d) 44100 in
          let frameCount := Z.of_nat (length float32) / channels in
          if frameCount <=? 0 then Empty
          else if createBufferThrows env then Thrown
          else
            Ready
              {| numberOfChannels := channels;
                 bufferLength := frameCount;
                 bufferSampleRate := sampleRate;
                 channelData :=
                   map (fun ch =>
                          map (fun i =>
                                 nth (i * Z.to_nat channels + ch)%nat float32 0%Q)
                              (seq 0 (Z.to_nat frameCount)))
                       (seq 0 (Z.to_nat channels)) |}
      end
  end.

Definition BUFFER_TIME : Q := 0.05.

(** [playAudioChunk], lines 200-273. *)
Definition playAudioChunk (env : Env) (d : AudioData) (s : State)
  : State * list Effect :=
  match audioContextRef (audio s) with
  | None => (s, [])
  | Some ctx =>
      if negb (bool_decide (state_of s ctx = Some running)) then (s, [])
      else
        match prepareBuffer env d with
        | Thrown => (s, [ConsoleError "音声再生エラー:"])
        | Empty => (s, [])
        | Ready audioBuffer =>
            let currentTime := ctxCurrentTime env in
            let startTime := nextPlayTimeRef (audio s) in
            let restart :=
              negb (audioInitializedRef (audio s))
              || JS.lt startTime currentTime in
            let startTime :=
              if restart then (currentTime + BUFFER_TIME)%Q else startTime in
            let s := if restart then set_audioInitializedRef true s else s in
            let startTime :=
              if JS.lt (currentTime + 0.2)%Q startTime
              then (currentTime + BUFFER_TIME)%Q else startTime in
            let s :=
              set_nextPlayTimeRef (startTime + duration audioBuffer)%Q s in
            (s, [SourceStart ctx audioBuffer startTime])
        end
  end.

(** The [audio] socket handler, lines 167-172. *)
Definition on_audio (env : Env) (d : AudioData) (s : State)
  : State * list Effect :=
  if negb (isAudioEnabledRef (audio s)) then (s, [])
  else if JS.strict_eq (currentSharerIdRef (audio s)) (clientIdRef (audio s))
  then (s, [])
  else if playAudioChunkRef (audio s) then playAudioChunk env d s
  else (s, []).

(** The [frame] socket handler, lines 105-129. *)
Definition on_frame (env : Env) (d : FrameData) (s : State) : State :=
  let s := setCurrentFrame (Some ("data:image/jpeg;base64," +:+ image d)) s in
  let s :=
    set_frameInfoRef
      {| width := JS.or_default (frame_width d) 0;
         height := JS.or_default (frame_height d) 0;
         size := JS.or_default (frame_size d) 0 |} s in
  let counter := fpsCounterRef (metrics s) in
  let counter := {| count := count counter + 1; lastTime := lastTime counter |} in
  let s := set_fpsCounterRef counter s in
  let now := dateNow env in
  let elapsed := now - lastTime counter in
  if 1000 <=? elapsed then
    let currentFps :=
      JS.Math_round (inject_Z (count counter * 1000) / inject_Z elapsed) in
    let s := setFps currentFps s in
    let s := setFrameInfo (frameInfoRef (metrics s)) s in
    set_fpsCounterRef {| count := 0; lastTime := now |} s
  else s.

(** The [disconnect] socket handler, lines 71-75. *)
Definition on_disconnect (s : State) : State :=
  setIsSharing false (setIsConnected false s).

(** The [connected] socket handler, lines 77-89. *)
Definition on_connected (env : Env) (d : ConnectedData) (s : State) : State :=
  let s := setClientId (client_id d) s in
  let s := set_clientIdRef (client_id d) s in
  let s := setClientCount (client_count d) s in
  let s := setCurrentSharerId (current_sharer d) s in
  let s := set_currentSharerIdRef (current_sharer d) s in
  let s := setAudioAvailable (audio_available d) s in
  let s := setIsHost (is_host d) s in
  let s := if is_sharing d then setIsSharing true s else s in
  addMessage env
    (if is_host d then "接続しました (ホスト)" else "接続しました (クライアント)")
    "info" s.

(** The [sharing_started] socket handler, lines 136-143. *)
Definition on_sharing_started (env : Env) (sharer_id : JS.value)
    (target : string) (s : State) : State :=
  let s := setIsSharing true s in
  let s := setCurrentSharerId sharer_id s in
  let s := set_currentSharerIdRef sharer_id s in
  let s := setCurrentFrame None s in
  addMessage env ("共有開始: " +:+ target) "success" s.

(** The [sharing_stopped] socket handler, lines 145-151. *)
Definition on_sharing_stopped (env : Env) (s : State) : State :=
  let s := setIsSharing false s in
  let s := setCurrentFrame None s in
  let s := setCurrentSharerId JS.Null s in
  let s := set_currentSharerIdRef JS.Null s in
  addMessage env "共有停止" "warning" s.

(** [new AudioContext(...)] when the ref is empty, as both [unlockAudio]
    (lines 286-295) and the enabling branch of [toggleAudio] (lines 345-352)
    do it: the new context is stored in the ref and the playback clock is
    reset. [None] when the constructor throws. *)
Definition ensureContext (env : Env) (s : State) : option (nat * State) :=
  match audioContextRef (audio s) with
  | Some ctx => Some (ctx, s)
  | None =>
      match newAudioContext env with
      | None => None
      | Some st =>
          let ctx := length (contexts s) in
          let s := set_contexts (contexts s ++ [st]) s in
          let s := set_audioContextRef (Some ctx) s in
          let s := set_nextPlayTimeRef 0%Q s in
          let s := set_audioInitializedRef false s in
          Some (ctx, s)
      end
  end.

(** [unlockAudio], lines 281-316. The continuation of [ctx.resume()] is
    [on_resume_settled] below. *)
Definition unlockAudio (env : Env) (s : State) : State * list Effect :=
  match ensureContext env s with
  | None => (s, [ConsoleError "AudioContextエラー:"])
  | Some (ctx, s) =>
      match state_of s ctx with
      | Some suspended =>
          (set_pendingResume (pendingResume s ++ [ctx]) s, [Resume ctx])
      | Some running => (setAudioUnlocked true s, [])
      | _ => (s, [])
      end
  end.

(** Removes the first occurrence of [ctx], if there is one. *)
Fixpoint remove_first (ctx : nat) (l : list nat) : list nat :=
  match l with
  | [] => []
  | x :: t => if bool_decide (x = ctx) then t else x :: remove_first ctx t
  end.

(** The [then] and [catch] callbacks of lines 301-308; [ctx] is the context
    the closure captured, not the current content of the ref. *)
Definition on_resume_settled (ctx : nat) (fulfilled : bool) (s : State)
  : State * list Effect :=
  if bool_decide (ctx ∈ pendingResume s) then
    let s := set_pendingResume (remove_first ctx (pendingResume s)) s in
    if fulfilled then
      if bool_decide (state_of s ctx = Some running)
      then (setAudioUnlocked true s, [])
      else (s, [])
    else (s, [ConsoleError "AudioContext再開失敗:"])
  else (s, []).

(** [toggleAudio], lines 319-365. The socket exists from the mount effect
    on, so [!socket] is false. *)
Definition toggleAudio (env : Env) (s : State) : State * list Effect :=
  if negb (isConnected (session s)) then (s, [])
  else
    let mine :=
      JS.strict_eq (currentSharerId (session s)) (clientId (session s)) in
    if isAudioEnabled (audio s) then
      let s := setIsAudioEnabled false s in
      let s := set_isAudioEnabledRef false s in
      let stop := if mine then [Emit "stop_audio"] else [] in
      let closing :=
        match audioContextRef (audio s) with
        | Some ctx => [Close ctx]
        | None => []
        end in
      let s := set_audioContextRef None s in
      let s := set_nextPlayTimeRef 0%Q s in
      let s := set_audioInitializedRef false s in
      (s, stop ++ closing)
    else
      let s := setIsAudioEnabled true s in
      let s := set_isAudioEnabledRef true s in
      match ensureContext env s with
      | None => (s, [])   (* uncaught: the handler ends here *)
      | Some (ctx, s) =>
          let resuming :=
            if bool_decide (state_of s ctx = Some suspended)
            then [Resume ctx] else [] in
          let start := if mine then [Emit "start_audio"] else [] in
          (addMessage env "音声を有効にしました" "success" s, resuming ++ start)
      end.

(** The platform changes the state of a context it knows. *)
Definition on_context_state (ctx : nat) (st : ctx_state) (s : State) : State :=
  set_contexts (<[ctx := st]> (contexts s)) s.

(** Dispatch of one event to its handler. *)
Definition handle (env : Env) (ev : Event) (s : State) : State * list Effect :=
  match ev with
  | Connect => (setIsConnected true s, [])
  | Disconnect => (on_disconnect s, [])
  | Connected d => (on_connected env d s, [])
  | ClientCountUpdated n => (setClientCount n s, [])
  | Frame d => (on_frame env d s, [])
  | Stats server_fps =>
      (if server_fps =? 0 then s else setFps server_fps s, [])
  | SharingStarted sharer_id target =>
      (on_sharing_started env sharer_id target s, [])
  | SharingStopped => (on_sharing_stopped env s, [])
  | SharingTakenOver =>
      (addMessage env "他のユーザーが共有を開始しました" "info" s, [])
  | ServerError message => (addMessage env message "error" s, [])
  | SettingsChanged resolution_limit fps_text =>
      (addMessage env
         ("設定変更: " +:+ resolution_limit +:+ " " +:+ fps_text +:+ "fps")
         "info" s, [])
  | AudioChunk d => on_audio env d s
  | AudioStarted => (addMessage env "音声共有開始" "success" s, [])
  | AudioStopped => (addMessage env "音声共有停止" "warning" s, [])
  | AudioError message => (addMessage env message "error" s, [])
  | UnlockAudio => unlockAudio env s
  | ToggleAudio => toggleAudio env s
  | ResumeSettled ctx fulfilled => on_resume_settled ctx fulfilled s
  | ContextState ctx st => (on_context_state ctx st s, [])
  end.

(** A run: events are handled one after the other, each with the platform
    answers it met; the effects are collected in order. *)
Fixpoint run (evs : list (Env * Event)) (s : State) : State * list Effect :=
  match evs with
  | [] => (s, [])
  | (env, ev) :: rest =>
      let '(s1, out1) := handle env ev s in
      let '(s2, out2) := run rest s1 in
      (s2, out1 ++ out2)
  end.

(** The component after its first render and its mount effects;
    [mountTime] is the [Date.now()] read when [fpsCounterRef] is created. *)
Definition init (mountTime : Z) : State :=
  {| session :=
       {| isConnected := false; isSharing := false; currentFrame := None;
          clientCount := 0; clientId := JS.Str ""; currentSharerId := JS.Null;
          isHost := false; audioAvailable := false; messages := [] |};
     metrics :=
       {| fps := 0;
          frameInfo := {| width := 0; height := 0; size := 0 |};
          fpsCounterRef := {| count := 0; lastTime := mountTime |};
          frameInfoRef := {| width := 0; height := 0; size := 0 |} |};
     audio :=
       {| isAudioEnabled := true; audioUnlocked := false;
          audioContextRef := None; nextPlayTimeRef := 0%Q;
          isAudioEnabledRef := true; playAudioChunkRef := true;
          currentSharerIdRef := JS.Null; clientIdRef := JS.Str "";
          audioInitializedRef := false |};
     contexts := [];
     pendingResume := [] |}.

End App.

(** ** The still-image view ([ScreenView], JPEG variant) *)

Module StillView.

(** Truthiness of the [currentFrame] prop: [null] and the empty string are
    falsy. *)
Definition truthy (currentFrame : option string) : bool :=
  match currentFrame with
  | Some url => negb (bool_decide (url = ""))
  | None => false
  end.


End StillView.

(** ** The continuous-bitstream view ([ScreenView], H.264 variant) *)

Module H264View.

(** A [currentFrame] object: its identity and its [image] property. *)
Record FrameObj : Type := {
  frame_ref : nat;
  image : option string
}.

Record Props : Type := {
  isSharing : bool;
  currentFrame : option FrameObj
}.

(** Platform answers during one commit. *)
Record Env : Type := {
  atob : string -> option (list byte);  (* None: atob throws *)
  jmuxerThrows : bool;                  (* new JMuxer(...) throws *)
  feedThrows : bool                     (* jmuxer.feed(...) throws *)
}.

(** Refs and state of the component, the props of the last commit (the
    dependencies React compares against), and the decoders of the platform:
    a [JMuxer] instance is named by its rank of construction, [live] lists
    the instances on which [destroy()] has not been called. *)
Record State : Type := {
  jmuxerRef : option nat;
  videoRef : option nat;
  isH264Ready : bool;
  frameCountRef : Z;
  lastProps : Props;
  constructed : nat;
  live : list nat;
  videos : nat
}.

Inductive Effect : Type :=
| Created (j : nat) (node : nat)     (* new JMuxer({node, ...}) returned j *)
| Destroyed (j : nat)                (* j.destroy() was called *)
| Fed (j : nat) (video : list byte)  (* j.feed({video}) was called *)
| ConsoleError (what : string).

(** [Object.is] on two values of the [currentFrame] prop. *)
Definition same_frame (a b : option FrameObj) : bool :=
  match a, b with
  | None, None => true
  | Some x, Some y => bool_decide (frame_ref x = frame_ref y)
  | _, _ => false
  end.

(** [currentFrame.image] is truthy: present and not the empty string. *)
Definition truthy_image (f : FrameObj) : option string :=
  match image f with
  | Some b64 => if bool_decide (b64 = "") then None else Some b64
  | None => None
  end.

(** The video element is part of the output only while [currentFrame] is
    truthy; React keeps the element across commits that both render it. *)
Definition reconcile (p : Props) (s : State) : State :=
  match currentFrame p, videoRef s with
  | Some _, Some _ => s
  | Some _, None =>
      {| jmuxerRef := jmuxerRef s; videoRef := Some (videos s);
         isH264Ready := isH264Ready s; frameCountRef := frameCountRef s;
         lastProps := lastProps s; constructed := constructed s;
         live := live s; videos := S (videos s) |}
  | None, _ =>
      {| jmuxerRef := jmuxerRef s; videoRef := None;
         isH264Ready := isH264Ready s; frameCountRef := frameCountRef s;
         lastProps := lastProps s; constructed := constructed s;
         live := live s; videos := videos s |}
  end.

(** Initialisation effect, lines 177-201, dependencies
    [isSharing, currentFrame]. *)
Definition initEffect (env : Env) (p : Props) (s : State)
  : State * list Effect :=
  match isSharing p, currentFrame p, videoRef s, jmuxerRef s with
  | true, Some _, Some node, None =>
      if jmuxerThrows env then (s, [ConsoleError "jmuxer初期化エラー:"])
      else
        let j := constructed s in
        ({| jmuxerRef := Some j; videoRef := videoRef s;
            isH264Ready := true; frameCountRef := frameCountRef s;
            lastProps := lastProps s; constructed := S j;
            live := live s ++ [j]; videos := videos s |},
         [Created j node])
  | _, _, _, _ => (s, [])
  end.

(** Clean-up effect, lines 204-216, dependency [isSharing]. [destroy()] is
    called inside a [try] with an empty [catch]. *)
Definition cleanupEffect (p : Props) (s : State) : State * list Effect :=
  if isSharing p then (s, [])
  else
    ({| jmuxerRef := None; videoRef := videoRef s;
        isH264Ready := false; frameCountRef := 0;
        lastProps := lastProps s; constructed := constructed s;
        live :=
          match jmuxerRef s with
          | Some j => filter (fun x => x ≠ j) (live s)
          | None => live s
          end;
        videos := videos s |},
     match jmuxerRef s with
     | Some j => [Destroyed j]
     | None => []
     end).

(** Feed effect, lines 219-239, dependency [currentFrame]. *)
Definition feedEffect (env : Env) (p : Props) (s : State)
  : State * list Effect :=
  match currentFrame p with
  | None => (s, [])
  | Some f =>
      match truthy_image f with
      | None => (s, [])
      | Some b64 =>
          match jmuxerRef s with
          | None => (s, [])
          | Some j =>
              match atob env b64 with
              | None => (s, [ConsoleError "H.264フィードエラー:"])
              | Some bytes =>
                  if feedThrows env
                  then (s, [Fed j bytes; ConsoleError "H.264フィードエラー:"])
                  else
                    ({| jmuxerRef := jmuxerRef s; videoRef := videoRef s;
                        isH264Ready := isH264Ready s;
                        frameCountRef := frameCountRef s + 1;
                        lastProps := lastProps s;
                        constructed := constructed s;
                        live := live s; videos := videos s |},
                     [Fed j bytes])
              end
          end
      end
  end.

Definition set_lastProps (p : Props) (s : State) : State :=
  {| jmuxerRef := jmuxerRef s; videoRef := videoRef s;
     isH264Ready := isH264Ready s; frameCountRef := frameCountRef s;
     lastProps := p; constructed := constructed s;
     live := live s; videos := videos s |}.

(** One commit: the output is reconciled, then the effects whose
    dependencies changed run in the order of their declaration. On the
    first commit ([first = true]) all of them run. *)
Definition commit (first : bool) (env : Env) (p : Props) (s : State)
  : State * list Effect :=
  let s := reconcile p s in
  let sharingChanged :=
    first || negb (Bool.eqb (isSharing p) (isSharing (lastProps s))) in
  let frameChanged :=
    first || negb (same_frame (currentFrame p) (currentFrame (lastProps s))) in
  let '(s, e1) :=
    if sharingChanged || frameChanged then initEffect env p s else (s, []) in
  let '(s, e2) := if sharingChanged then cleanupEffect p s else (s, []) in
  let '(s, e3) := if frameChanged then feedEffect env p s else (s, []) in
  (set_lastProps p s, e1 ++ e2 ++ e3).

(** The component before its first commit. *)
Definition unmounted : State :=
  {| jmuxerRef := None; videoRef := None; isH264Ready := false;
     frameCountRef := 0;
     lastProps := {| isSharing := false; currentFrame := None |};
     constructed := 0; live := []; videos := 0 |}.

Definition mount (env : Env) (p : Props) : State * list Effect :=
  commit true env p unmounted.

Definition update (env : Env) (p : Props) (s : State) : State * list Effect :=
  commit false env p s.

(** A sequence of re-renders after the mount. *)
Fixpoint run (steps : list (Env * Props)) (s : State) : State * list Effect :=
  match steps with
  | [] => (s, [])
  | (env, p) :: rest =>
      let '(s1, e1) := update env p s in
      let '(s2, e2) := run rest s1 in
      (s2, e1 ++ e2)
  end.

(** States the mounted component can be in. *)
Inductive reachable : State -> Prop :=
| reachable_mount env p : reachable (mount env p).1
| reachable_update env p s : reachable s -> reachable (update env p s).1.

(** The [feed] calls among some effects, in order. *)
Definition feeds (es : list Effect) : list (nat * list byte) :=
  omap (fun e => match e with Fed j b => Some (j, b) | _ => None end) es.

(** The decoders constructed by some effects. *)
Definition creations (es : list Effect) : list nat :=
  omap (fun e => match e with Created j _ => Some j | _ => None end) es.

(** The bytes the feed effect passes on for a frame, when it gets to call
    [feed]. *)
Definition payload (env : Env) (f : FrameObj) : option (list byte) :=
  match truthy_image f with
  | Some b64 => atob env b64
  | None => None
  end.

(** The decoders the component owns according to its ref. *)
Definition owned (s : State) : list nat :=
  match jmuxerRef s with
  | Some j => [j]
  | None => []
  end.

(** Re-renders of a sharing session, one per frame sample. *)
Definition sharing_frames (fs : list (Env * FrameObj)) : list (Env * Props) :=
  map (fun ef => (ef.1, {| isSharing := true; currentFrame := Some ef.2 |})) fs.

(** Every frame of the list is a new object with respect to the one
    rendered before it. *)
Fixpoint all_new (prev : option FrameObj) (fs : list (Env * FrameObj)) : bool :=
  match fs with
  | [] => true
  | ef :: rest =>
      negb (same_frame (Some ef.2) prev) && all_new (Some ef.2) rest
  end.

(** The [feed] calls a decoder [j] is expected to receive for the frames. *)
Definition expected_feeds (j : nat) (fs : list (Env * FrameObj))
  : list (nat * list byte) :=
  omap (fun ef =>
          match payload ef.1 ef.2 with
          | Some b => Some (j, b)
          | None => None
          end) fs.

(** Concrete platform and frames: the payload text stands for its bytes. *)
Definition text_bytes (b64 : string) : list byte :=
  String.list_byte_of_string b64.

Definition envOk : Env :=
  {| atob := fun b64 => Some (text_bytes b64);
     jmuxerThrows := false; feedThrows := false |}.

Definition envBroken : Env :=
  {| atob := fun b64 => Some (text_bytes b64);
     jmuxerThrows := true; feedThrows := false |}.

Definition au (n : nat) (b64 : string) : FrameObj :=
  {| frame_ref := n; image := Some b64 |}.

(** Mounted without a frame, then told that sharing started. *)
Definition waiting : State :=
  (update envOk {| isSharing := true; currentFrame := None |}
     (mount envOk {| isSharing := false; currentFrame := None |}).1).1.

(** The first access unit arrived and the decoder exists. *)
Definition decoding : State :=
  (update envOk {| isSharing := true; currentFrame := Some (au 1 "AU1") |}
     waiting).1.

End H264View.

(** ** Specification-level definitions and concrete sessions *)

Module Spec.
Import App.

(** The start time of a chunk as the specification words it: restart at
    [now + 50ms] for the first chunk or after an underrun, resynchronise at
    [now + 50ms] beyond the 200ms drift ceiling, append otherwise. *)
Definition spec_startTime (now next : Q) (initialized : bool) : Q :=
  if negb initialized || JS.lt next now then (now + 0.05)%Q
  else if JS.lt (now + 0.2) next then (now + 0.05)%Q
  else next.

(** The cells the audio handler reads agree with the session cells shown
    to the user. *)
Definition refs_in_sync (s : State) : Prop :=
  currentSharerIdRef (audio s) = currentSharerId (session s)
  /\ clientIdRef (audio s) = clientId (session s).

(** A platform on which every constructor succeeds, a new context runs at
    once, and every audio payload decodes to 20ms of stereo silence at
    44100Hz (882 frames, 3528 bytes); [t] is the device clock and [ms]
    the wall clock. *)
Definition envAt (t : Q) (ms : Z) : Env :=
  {| dateNow := ms; localeTime := "12:00:00"; ctxCurrentTime := t;
     atob := fun _ => Some (repeat "000"%byte 3528);
     createBufferThrows := false;
     newAudioContext := Some running |}.

Definition chunk20ms : AudioData :=
  {| data := "AAAA"; channels := 2; sampleRate := 44100 |}.

Definition silence : AudioBuffer :=
  {| numberOfChannels := 2; bufferLength := 882; bufferSampleRate := 44100;
     channelData := repeat (repeat (0 # 32768)%Q 882) 2 |}.

Definition me : JS.value := JS.Str "abc123".
Definition other : JS.value := JS.Str "def456".

Definition hello (sharer : JS.value) : ConnectedData :=
  {| client_id := me; client_count := 2; current_sharer := sharer;
     audio_available := true; is_host := true; is_sharing := false |}.

Definition frameP1 : FrameData :=
  {| image := "P1"; frame_width := 1920; frame_height := 1080;
     frame_size := 2048 |}.

(** A viewer connected to a session that [other] shares, audio unlocked. *)
Definition listening : State :=
  (run [(envAt 0 0, Connect);
        (envAt 0 0, Connected (hello JS.Null));
        (envAt 0 0, SharingStarted other "Monitor 1");
        (envAt 0 0, UnlockAudio)] (init 0)).1.



(** The local participant shares: the server names it as the sharer. *)
Definition sharing_myself : list (Env * Event) :=
  [(envAt 0 0, Connect);
   (envAt 0 0, Connected (hello JS.Null));
   (envAt 0 0, SharingStarted me "Monitor 1");
   (envAt 0 0, UnlockAudio)].



(** A viewer that shows a frame and has played a chunk. *)
Definition watching : State :=
  (run [(envAt 1 200, Frame frameP1);
        (envAt 1 300, AudioChunk chunk20ms)] listening).1.



(** Frame events as they are queued for [run]. *)
Definition frame_events (fs : list (Env * FrameData)) : list (Env * Event) :=
  map (fun f => (f.1, Frame f.2)) fs.

(** The log entry [addMessage] builds from its arguments. *)
Definition entry (call : Env * string * string) : Message :=
  {| text := call.1.2; type := call.2; timestamp := localeTime call.1.1 |}.

(** Successive calls of [addMessage]. *)
Fixpoint addMessages (calls : list (Env * string * string)) (s : State)
  : State :=
  match calls with
  | [] => s
  | call :: rest => addMessages rest (addMessage call.1.1 call.1.2 call.2 s)
  end.

(** Two frames inside the first second after the mount and a third one
    just after it. *)
Definition early_frames : list (Env * FrameData) :=
  [(envAt 0 100, frameP1); (envAt 0 500, frameP1)].

(** A platform whose new contexts start suspended (autoplay policy). *)
Definition envSuspended : Env :=
  {| dateNow := 0; localeTime := "12:00:00"; ctxCurrentTime := 0;
     atob := fun _ => None; createBufferThrows := false;
     newAudioContext := Some suspended |}.

(** The first gesture on such a platform: the context exists, its
    [resume()] is pending. Then the device starts it and the promise is
    fulfilled. *)
Definition unlock_requested : State :=
  (run [(envSuspended, UnlockAudio)] (init 0)).1.

Definition device_started : State :=
  (run [(envSuspended, ContextState 0 running)] unlock_requested).1.

End Spec.

(** ** Further specification-level definitions *)

Module Extra.
Import App Spec.

(** The normalised sample stream [float32] that [playAudioChunk] builds
    from the decoded bytes (lines 218-222); empty when the view cannot be
    built. *)
Definition float32_of (bytes : list byte) : list Q :=
  match JS.Int16Array bytes with
  | Some int16 => map (fun x => (inject_Z x / 32768)%Q) int16
  | None => []
  end.

(** Interleaving of channel data: frame after frame, one sample of every
    channel. *)
Definition interleave (cols : list (list Q)) (frames channels : nat) : list Q :=
  flat_map (fun i => map (fun ch => nth i (nth ch cols []) 0%Q) (seq 0 channels))
           (seq 0 frames).

(** The sources started by some effects. *)
Definition started (out : list Effect) : list (nat * AudioBuffer * Q) :=
  omap (fun e => match e with
                 | SourceStart ctx b t => Some (ctx, b, t)
                 | _ => None
                 end) out.

(** The commands sent over the socket by some effects. *)
Definition emitted (out : list Effect) : list string :=
  omap (fun e => match e with Emit c => Some c | _ => None end) out.

Definition is_toggle (ev : Event) : bool :=
  match ev with ToggleAudio => true | _ => false end.

Definition is_connected (ev : Event) : bool :=
  match ev with Connected _ => true | _ => false end.

(** The data URLs of the frame events of a run. *)
Definition frame_urls (evs : list (Env * Event)) : list string :=
  omap (fun e => match e.2 with
                 | Frame d => Some ("data:image/jpeg;base64," +:+ image d)
                 | _ => None
                 end) evs.

(** A platform that decodes every audio payload to the given bytes. *)
Definition envBytes (bytes : list byte) (t : Q) : Env :=
  {| dateNow := 0; localeTime := "12:00:00"; ctxCurrentTime := t;
     atob := fun _ => Some bytes; createBufferThrows := false;
     newAudioContext := Some running |}.

(** Three 16-bit samples for two channels: one whole frame and a half. *)
Definition six_bytes : list byte :=
  ["001"; "000"; "255"; "255"; "000"; "128"]%byte.

Definition five_bytes : list byte := ["001"; "000"; "255"; "255"; "000"]%byte.

Definition stereo : AudioData :=
  {| data := "AQD//wCA"; channels := 2; sampleRate := 44100 |}.

(** A disconnect, a takeover by somebody else and a stop, without any
    [connected] event. *)
Definition reconnect_no_hello : list (Env * Event) :=
  [(envAt 5 5000, Disconnect);
   (envAt 6 6000, Connect);
   (envAt 6 6100, SharingStarted other "Monitor 2");
   (envAt 6 6200, SharingTakenOver);
   (envAt 7 7000, SharingStopped)].

End Extra.

(** ** The control panel ([ControlPanel]) *)

Module Panel.

(** The props the panel reads to decide what is rendered and what is
    disabled. *)
Record Props : Type := {
  isConnected : bool;
  isSharing : bool;
  isMySharing : bool;
  isHost : bool;
  isAudioEnabled : bool;
  audioAvailable : bool;
  messages : list App.Message
}.

(** The share buttons exist for the host only (lines 36-81). *)
Definition share_buttons_rendered (p : Props) : bool := isHost p.

Definition start_disabled (p : Props) : bool := negb (isConnected p).

Definition start_label (p : Props) : string :=
  if isSharing p && negb (isMySharing p) then "共有を引き継ぐ" else "共有を開始".

Definition stop_disabled (p : Props) : bool :=
  negb (isConnected p) || negb (isMySharing p).

(** Quality buttons, lines 86-96. *)
Definition quality_disabled (p : Props) : bool :=
  negb (isConnected p) || isSharing p || negb (isHost p).

Definition fullscreen_disabled (p : Props) : bool := negb (isSharing p).

(** Audio button, lines 115-123. *)
Definition audio_disabled (p : Props) : bool :=
  negb (isConnected p) || negb (audioAvailable p).

(** The log box, lines 172-180: the texts of [messages.slice(-5)]. *)
Definition shown_messages (p : Props) : list string :=
  map App.text (JS.slice_last 5 (messages p)).

(** The props [App] passes down (lines 458-476). *)
Definition props_of (s : App.State) : Props :=
  {| isConnected := App.isConnected (App.session s);
     isSharing := App.isSharing (App.session s);
     isMySharing :=
       JS.strict_eq (App.currentSharerId (App.session s))
                    (App.clientId (App.session s));
     isHost := App.isHost (App.session s);
     isAudioEnabled := App.isAudioEnabled (App.audio s);
     audioAvailable := App.audioAvailable (App.session s);
     messages := App.messages (App.session s) |}.

End Panel.

(** ** The source picker ([SourcePicker]) *)

Module Picker.

Record Source : Type := {
  src_type : string;
  src_id : string;
  name : string;
  title : option string
}.

#[global] Instance Source_eq_dec : EqDecision Source.
Proof. solve_decision. Defined.

Inductive Tab : Type := TabAll | TabMonitors | TabWindows.

(** Local state of the dialog. *)
Record State : Type := {
  selectedSource : option Source;
  activeTab : Tab
}.

Definition initial : State := {| selectedSource := None; activeTab := TabAll |}.

Definition monitors (sources : list Source) : list Source :=
  filter (fun s => src_type s = "monitor") sources.

Definition windows (sources : list Source) : list Source :=
  filter (fun s => src_type s = "window") sources.

Definition filteredSources (tab : Tab) (sources : list Source) : list Source :=
  match tab with
  | TabAll => sources
  | TabMonitors => monitors sources
  | TabWindows => windows sources
  end.

(** The items of the grid, lines 61-107: none while loading. *)
Definition grid (isLoading : bool) (tab : Tab) (sources : list Source)
  : list Source :=
  if isLoading then [] else filteredSources tab sources.

(** An item is drawn as selected when id and type agree with the selection
    (lines 74 and 88). *)
Definition highlighted (st : State) (source : Source) : bool :=
  match selectedSource st with
  | Some sel =>
      bool_decide (src_id sel = src_id source)
      && bool_decide (src_type sel = src_type source)
  | None => false
  end.

Definition share_disabled (st : State) : bool :=
  match selectedSource st with Some _ => false | None => true end.

(** [source.title || source.name]. *)
Definition title_or_name (source : Source) : string :=
  match title source with
  | Some t => if bool_decide (t = "") then name source else t
  | None => name source
  end.

End Picker.

(** ** The application component with its controls

    [App] together with the cells and callbacks that drive the source
    picker and the control panel (lines 23-26, 95-103, 138, 367-410 and
    432-490 of [App.jsx]). A click reaches its callback only when the
    control is rendered and not disabled. The fullscreen toggle, which
    talks to the document only, is left out. *)

Module AppUI.

Record State : Type := {
  app : App.State;
  showSourcePicker : bool;
  picker : Picker.State;         (* local state of the dialog while shown *)
  sources : list Picker.Source;
  selectedSource : option string; (* the title of the [source_selected] payload *)
  isLoadingSources : bool;
  preset : string
}.

Inductive Quality : Type := hd60 | q4k30.

(** The [id] of a quality option (lines 26-29 of the panel). *)
Definition quality_id (q : Quality) : string :=
  match q with hd60 => "hd60" | q4k30 => "4k30" end.

Inductive Command : Type :=
| GetSources
| StartSharing (preset src_type src_id title : string) (withAudio : bool)
| StopSharing
| ChangeSettings (preset : string)
| Other (e : App.Effect).

Inductive Event : Type :=
| Socket (ev : App.Event)
| SourcesList (list : option (list Picker.Source))
| SourceSelected (title : string)
| ClickStart
| ClickStop
| ClickQuality (q : Quality)
| ClickAudio
| PickerClose
| PickerRefresh
| PickerTab (tab : Picker.Tab)
| PickerItem (i : nat)
| PickerShare.

Definition with_app (a : App.State) (s : State) : State :=
  {| app := a; showSourcePicker := showSourcePicker s; picker := picker s;
     sources := sources s; selectedSource := selectedSource s;
     isLoadingSources := isLoadingSources s; preset := preset s |}.

(** [setShowSourcePicker]; the dialog loses its local state when it is
    taken out of the tree. *)
Definition setShowSourcePicker (v : bool) (s : State) : State :=
  {| app := app s; showSourcePicker := v;
     picker := if v then picker s else Picker.initial;
     sources := sources s; selectedSource := selectedSource s;
     isLoadingSources := isLoadingSources s; preset := preset s |}.

Definition with_picker (p : Picker.State) (s : State) : State :=
  {| app := app s; showSourcePicker := showSourcePicker s; picker := p;
     sources := sources s; selectedSource := selectedSource s;
     isLoadingSources := isLoadingSources s; preset := preset s |}.

Definition setSources (v : list Picker.Source) (s : State) : State :=
  {| app := app s; showSourcePicker := showSourcePicker s; picker := picker s;
     sources := v; selectedSource := selectedSource s;
     isLoadingSources := isLoadingSources s; preset := preset s |}.

Definition setSelectedSource (v : option string) (s : State) : State :=
  {| app := app s; showSourcePicker := showSourcePicker s; picker := picker s;
     sources := sources s; selectedSource := v;
     isLoadingSources := isLoadingSources s; preset := preset s |}.

Definition setIsLoadingSources (v : bool) (s : State) : State :=
  {| app := app s; showSourcePicker := showSourcePicker s; picker := picker s;
     sources := sources s; selectedSource := selectedSource s;
     isLoadingSources := v; preset := preset s |}.

Definition setPreset (v : string) (s : State) : State :=
  {| app := app s; showSourcePicker := showSourcePicker s; picker := picker s;
     sources := sources s; selectedSource := selectedSource s;
     isLoadingSources := isLoadingSources s; preset := v |}.

Definition connected (s : State) : bool := App.isConnected (App.session (app s)).

(** [openSourcePicker], lines 368-374. *)
Definition openSourcePicker (s : State) : State * list Command :=
  let s := setShowSourcePicker true s in
  let s := setIsLoadingSources true s in
  (s, if connected s then [GetSources] else []).

(** [refreshSources], lines 377-382. *)
Definition refreshSources (s : State) : State * list Command :=
  let s := setIsLoadingSources true s in
  (s, if connected s then [GetSources] else []).

(** [handleSelectSource], lines 385-397. *)
Definition handleSelectSource (source : Picker.Source) (s : State)
  : State * list Command :=
  (s, if connected s
      then [StartSharing (preset s) (Picker.src_type source)
              (Picker.src_id source) (Picker.title_or_name source)
              (App.isAudioEnabled (App.audio (app s)))]
      else []).

(** [handleStopSharing], lines 399-403. *)
Definition handleStopSharing (s : State) : State * list Command :=
  (s, if connected s then [StopSharing] else []).

(** [handleChangePreset], lines 405-410. *)
Definition handleChangePreset (newPreset : string) (s : State)
  : State * list Command :=
  let s := setPreset newPreset s in
  (s, if connected s then [ChangeSettings newPreset] else []).

(** The socket handlers of [App]; [sharing_started] also closes the picker
    (line 138). *)
Definition on_socket (env : App.Env) (ev : App.Event) (s : State)
  : State * list Command :=
  let r := App.handle env ev (app s) in
  let s := with_app r.1 s in
  let s :=
    match ev with
    | App.SharingStarted _ _ => setShowSourcePicker false s
    | _ => s
    end in
  (s, map Other r.2).

(** One event of the component with its controls. *)
Definition handle (env : App.Env) (ev : Event) (s : State)
  : State * list Command :=
  let p := Panel.props_of (app s) in
  match ev with
  | Socket ev => on_socket env ev s
  | SourcesList l =>
      (setIsLoadingSources false (setSources (default [] l) s), [])
  | SourceSelected t =>
      (with_app (App.addMessage env ("選択: " +:+ t) "info" (app s))
         (setSelectedSource (Some t) s), [])
  | ClickStart =>
      if Panel.share_buttons_rendered p && negb (Panel.start_disabled p)
      then openSourcePicker s else (s, [])
  | ClickStop =>
      if Panel.share_buttons_rendered p && negb (Panel.stop_disabled p)
      then handleStopSharing s else (s, [])
  | ClickQuality q =>
      if negb (Panel.quality_disabled p)
      then handleChangePreset (quality_id q) s else (s, [])
  | ClickAudio =>
      if negb (Panel.audio_disabled p)
      then let r := App.toggleAudio env (app s) in (with_app r.1 s, map Other r.2)
      else (s, [])
  | PickerClose =>
      if showSourcePicker s then (setShowSourcePicker false s, []) else (s, [])
  | PickerRefresh =>
      if showSourcePicker s && negb (isLoadingSources s)
      then refreshSources s else (s, [])
  | PickerTab tab =>
      if showSourcePicker s
      then (with_picker {| Picker.selectedSource := Picker.selectedSource (picker s);
                           Picker.activeTab := tab |} s, [])
      else (s, [])
  | PickerItem i =>
      if showSourcePicker s then
        match Picker.grid (isLoadingSources s) (Picker.activeTab (picker s))
                (sources s) !! i with
        | Some source =>
            (with_picker {| Picker.selectedSource := Some source;
                            Picker.activeTab := Picker.activeTab (picker s) |} s,
             [])
        | None => (s, [])
        end
      else (s, [])
  | PickerShare =>
      if showSourcePicker s then
        match Picker.selectedSource (picker s) with
        | Some source => handleSelectSource source s
        | None => (s, [])
        end
      else (s, [])
  end.

Fixpoint run (evs : list (App.Env * Event)) (s : State) : State * list Command :=
  match evs with
  | [] => (s, [])
  | (env, ev) :: rest =>
      let r1 := handle env ev s in
      let r2 := run rest r1.1 in
      (r2.1, r1.2 ++ r2.2)
  end.

(** The component after its mount. *)
Definition init (mountTime : Z) : State :=
  {| app := App.init mountTime; showSourcePicker := false;
     picker := Picker.initial; sources := []; selectedSource := None;
     isLoadingSources := false; preset := "hd60" |}.

(** What goes out over the socket. *)
Definition is_sent (c : Command) : bool :=
  match c with
  | GetSources | StartSharing _ _ _ _ _ | StopSharing | ChangeSettings _ => true
  | Other (App.Emit _) => true
  | Other _ => false
  end.

(** The commands that start, stop or reconfigure sharing. *)
Definition is_sharing_command (c : Command) : bool :=
  match c with
  | GetSources | StartSharing _ _ _ _ _ | StopSharing | ChangeSettings _ => true
  | Other _ => false
  end.

Definition hosts (ev : Event) : bool :=
  match ev with
  | Socket (App.Connected d) => App.is_host d
  | _ => false
  end.

(** A display and a window, as the server lists them. *)
Definition monitor1 : Picker.Source :=
  {| Picker.src_type := "monitor"; Picker.src_id := "1";
     Picker.name := "Monitor 1"; Picker.title := None |}.

Definition editor : Picker.Source :=
  {| Picker.src_type := "window"; Picker.src_id := "4711";
     Picker.name := "editor"; Picker.title := Some "notes.txt - editor" |}.

(** A guest joins, clicks everything, and gets frames and a disconnect. *)
Definition guest_session : list (App.Env * Event) :=
  [(Spec.envAt 0 0, Socket App.Connect);
   (Spec.envAt 0 0,
    Socket (App.Connected
              {| App.client_id := Spec.me; App.client_count := 2;
                 App.current_sharer := JS.Null; App.audio_available := true;
                 App.is_host := false; App.is_sharing := false |}));
   (Spec.envAt 0 0, ClickStart);
   (Spec.envAt 0 0, SourcesList (Some [monitor1; editor]));
   (Spec.envAt 0 0, PickerItem 0);
   (Spec.envAt 0 0, PickerShare);
   (Spec.envAt 0 0, ClickQuality q4k30);
   (Spec.envAt 0 0, ClickStop)].

(** A host that lost its connection with the picker open and a source
    selected. *)
Definition cut_off_host : State :=
  (run [(Spec.envAt 0 0, Socket App.Connect);
        (Spec.envAt 0 0, Socket (App.Connected (Spec.hello JS.Null)));
        (Spec.envAt 0 0, ClickStart);
        (Spec.envAt 0 0, SourcesList (Some [monitor1; editor]));
        (Spec.envAt 0 0, PickerItem 1);
        (Spec.envAt 0 0, Socket App.Disconnect)] (init 0)).1.

(** A host that has connected and not started to share. *)
Definition host_changes_quality : list (App.Env * Event) :=
  [(Spec.envAt 0 0, Socket App.Connect);
   (Spec.envAt 0 0, Socket (App.Connected (Spec.hello JS.Null)))].

End AppUI.

(** ** The still-image view with its canvas ([ScreenView], JPEG variant)

    The component of lines 1-147 of the first [ScreenView] with the part of
    the platform it drives: the canvas elements it mounts, the
    animation-frame callbacks it has requested and the images whose decode
    is under way. The effects of a commit run before the next platform
    event. *)

Module JpegView.

Record Props : Type := {
  currentFrame : option string;
  isSharing : bool
}.

Record Canvas : Type := {
  cwidth : Z;
  cheight : Z;
  painted : option string    (* the image drawn last, None when blank *)
}.

(** A canvas element as it is created: 300 by 150, blank. *)
Definition blank : Canvas := {| cwidth := 300; cheight := 150; painted := None |}.

(** An [Image] created by [renderFrame]: the canvas its [onload] closure
    captured and its [src]. *)
Record Load : Type := {
  load_id : nat;
  target : nat;
  src : string
}.

Record State : Type := {
  canvasRef : option nat;
  frameRequestRef : option nat;
  lastProps : Props;
  canvases : list Canvas;            (* every canvas mounted so far, by index *)
  scheduled : list (nat * string);   (* requested callbacks: id, captured frame *)
  requests : nat;                    (* calls of requestAnimationFrame so far *)
  loading : list Load;               (* images not yet decoded *)
  loads : nat                        (* images created so far *)
}.

Inductive Effect : Type :=
| Requested (id : nat) (frame : string)   (* requestAnimationFrame *)
| Cancelled (id : nat)                    (* cancelAnimationFrame *)
| LoadStarted (load : nat) (canvas : nat) (frame : string)  (* img.src = frame *)
| Cleared (canvas : nat)                  (* clearRect over the whole canvas *)
| Drawn (canvas : nat) (frame : string) (w h : Z).   (* drawImage *)

(** Truthiness of the [currentFrame] prop. *)
Definition truthy (f : option string) : bool :=
  match f with
  | Some url => negb (bool_decide (url = ""))
  | None => false
  end.

(** The canvas is part of the output exactly while [currentFrame] is
    truthy (line 106). *)
Definition reconcile (p : Props) (s : State) : State :=
  if truthy (currentFrame p) then
    match canvasRef s with
    | Some _ => s
    | None =>
        {| canvasRef := Some (length (canvases s));
           frameRequestRef := frameRequestRef s; lastProps := lastProps s;
           canvases := canvases s ++ [blank]; scheduled := scheduled s;
           requests := requests s; loading := loading s; loads := loads s |}
    end
  else
    {| canvasRef := None;
       frameRequestRef := frameRequestRef s; lastProps := lastProps s;
       canvases := canvases s; scheduled := scheduled s;
       requests := requests s; loading := loading s; loads := loads s |}.

(** The clean-up of the frame effect (lines 55-59) and of the unmount
    effect (lines 75-79): [cancelAnimationFrame(frameRequestRef.current)]
    when the ref holds an id. Ids start at 1, so an id is truthy. *)
Definition cancelRequest (s : State) : State * list Effect :=
  match frameRequestRef s with
  | Some id =>
      ({| canvasRef := canvasRef s; frameRequestRef := frameRequestRef s;
          lastProps := lastProps s; canvases := canvases s;
          scheduled := filter (fun r => r.1 ≠ id) (scheduled s);
          requests := requests s; loading := loading s; loads := loads s |},
       [Cancelled id])
  | None => (s, [])
  end.

(** The body of the frame effect, lines 48-53. *)
Definition frameEffect (p : Props) (s : State) : State * list Effect :=
  match currentFrame p with
  | Some f =>
      if truthy (Some f) then
        let id := S (requests s) in
        ({| canvasRef := canvasRef s; frameRequestRef := Some id;
            lastProps := lastProps s; canvases := canvases s;
            scheduled := scheduled s ++ [(id, f)];
            requests := id; loading := loading s; loads := loads s |},
         [Requested id f])
      else (s, [])
  | None => (s, [])
  end.

Definition paint (c : nat) (v : Canvas) (s : State) : State :=
  {| canvasRef := canvasRef s; frameRequestRef := frameRequestRef s;
     lastProps := lastProps s; canvases := <[c := v]> (canvases s);
     scheduled := scheduled s; requests := requests s;
     loading := loading s; loads := loads s |}.

(** The sharing effect, lines 63-71: the mounted canvas is cleared when
    the component is rendered as not sharing. *)
Definition clearEffect (p : Props) (s : State) : State * list Effect :=
  if isSharing p then (s, [])
  else
    match canvasRef s with
    | Some c =>
        match canvases s !! c with
        | Some v =>
            (paint c {| cwidth := cwidth v; cheight := cheight v;
                        painted := None |} s, [Cleared c])
        | None => (s, [])
        end
    | None => (s, [])
    end.

Definition set_lastProps (p : Props) (s : State) : State :=
  {| canvasRef := canvasRef s; frameRequestRef := frameRequestRef s;
     lastProps := p; canvases := canvases s; scheduled := scheduled s;
     requests := requests s; loading := loading s; loads := loads s |}.

(** One commit: output reconciled, clean-up of the frame effect when its
    dependency changed, then the effects whose dependencies changed, in the
    order of their declaration. On the first commit all effects run and
    there is nothing to clean up. *)
Definition commit (first : bool) (p : Props) (s : State) : State * list Effect :=
  let s := reconcile p s in
  let frameChanged :=
    first || negb (bool_decide (currentFrame p = currentFrame (lastProps s))) in
  let sharingChanged :=
    first || negb (Bool.eqb (isSharing p) (isSharing (lastProps s))) in
  let r0 := if frameChanged && negb first then cancelRequest s else (s, []) in
  let r1 := if frameChanged then frameEffect p r0.1 else (r0.1, []) in
  let r2 := if sharingChanged then clearEffect p r1.1 else (r1.1, []) in
  (set_lastProps p r2.1, r0.2 ++ r1.2 ++ r2.2).

Definition unmounted : State :=
  {| canvasRef := None; frameRequestRef := None;
     lastProps := {| currentFrame := None; isSharing := false |};
     canvases := []; scheduled := []; requests := 0; loading := []; loads := 0 |}.

Definition mount (p : Props) : State * list Effect := commit true p unmounted.

Definition update (p : Props) (s : State) : State * list Effect := commit false p s.

(** [renderFrame], lines 20-44, up to the assignment of [img.src]. *)
Definition renderFrame (frameData : string) (s : State) : State * list Effect :=
  match canvasRef s with
  | Some c =>
      if truthy (Some frameData) then
        ({| canvasRef := canvasRef s; frameRequestRef := frameRequestRef s;
            lastProps := lastProps s; canvases := canvases s;
            scheduled := scheduled s; requests := requests s;
            loading := loading s ++ [{| load_id := loads s; target := c;
                                        src := frameData |}];
            loads := S (loads s) |},
         [LoadStarted (loads s) c frameData])
      else (s, [])
  | None => (s, [])
  end.

Fixpoint renderAll (frames : list string) (s : State) : State * list Effect :=
  match frames with
  | [] => (s, [])
  | f :: rest =>
      let r1 := renderFrame f s in
      let r2 := renderAll rest r1.1 in
      (r2.1, r1.2 ++ r2.2)
  end.

(** The platform runs the requested callbacks of an animation frame. *)
Definition animationFrame (s : State) : State * list Effect :=
  renderAll (map snd (scheduled s))
    {| canvasRef := canvasRef s; frameRequestRef := frameRequestRef s;
       lastProps := lastProps s; canvases := canvases s;
       scheduled := []; requests := requests s;
       loading := loading s; loads := loads s |}.

Definition find_load (l : nat) (s : State) : option Load :=
  list_find (fun ld => load_id ld = l) (loading s) ≫= fun r => Some r.2.

Definition forget_load (l : nat) (s : State) : State :=
  {| canvasRef := canvasRef s; frameRequestRef := frameRequestRef s;
     lastProps := lastProps s; canvases := canvases s;
     scheduled := scheduled s; requests := requests s;
     loading := filter (fun ld => load_id ld ≠ l) (loading s);
     loads := loads s |}.

(** [img.onload], lines 34-42, for an image of [w] by [h] pixels: the
    canvas the closure captured is resized when its size differs (which
    blanks it) and the image is drawn at the origin. *)
Definition imageLoaded (l : nat) (w h : Z) (s : State) : State * list Effect :=
  match find_load l s with
  | Some ld =>
      let s := forget_load l s in
      match canvases s !! target ld with
      | Some v =>
          let v :=
            if negb (cwidth v =? w) || negb (cheight v =? h)
            then {| cwidth := w; cheight := h; painted := None |} else v in
          (paint (target ld)
             {| cwidth := cwidth v; cheight := cheight v;
                painted := Some (src ld) |} s,
           [Drawn (target ld) (src ld) w h])
      | None => (s, [])
      end
  | None => (s, [])
  end.

(** The image cannot be decoded: no handler is installed, nothing happens. *)
Definition imageFailed (l : nat) (s : State) : State * list Effect :=
  (forget_load l s, []).

(** The component leaves the tree: both clean-ups that cancel the request
    run, the canvas goes. *)
Definition unmount (s : State) : State * list Effect :=
  let r1 := cancelRequest s in
  let r2 := cancelRequest r1.1 in
  (reconcile {| currentFrame := None; isSharing := isSharing (lastProps s) |} r2.1,
   r1.2 ++ r2.2).

Inductive Event : Type :=
| Commit (p : Props)
| AnimationFrame
| ImageLoaded (l : nat) (w h : Z)
| ImageFailed (l : nat).

Definition handle (ev : Event) (s : State) : State * list Effect :=
  match ev with
  | Commit p => update p s
  | AnimationFrame => animationFrame s
  | ImageLoaded l w h => imageLoaded l w h s
  | ImageFailed l => imageFailed l s
  end.

Fixpoint run (evs : list Event) (s : State) : State * list Effect :=
  match evs with
  | [] => (s, [])
  | ev :: rest =>
      let r1 := handle ev s in
      let r2 := run rest r1.1 in
      (r2.1, r1.2 ++ r2.2)
  end.

(** States of the mounted component. *)
Inductive reachable : State -> Prop :=
| reachable_mount p : reachable (mount p).1
| reachable_step ev s : reachable s -> reachable (handle ev s).1.

(** The image loads started by some effects. *)
Definition load_starts (out : list Effect) : list (nat * nat * string) :=
  omap (fun e => match e with
                 | LoadStarted l c f => Some (l, c, f)
                 | _ => None
                 end) out.

Definition showing (f : string) : Props :=
  {| currentFrame := Some f; isSharing := true |}.

(** Two frames arrive before the next animation frame; both decodes of a
    later pair are under way at once. *)
Definition two_frames : State :=
  (run [Commit (showing "data:image/jpeg;base64,P2")]
     (mount (showing "data:image/jpeg;base64,P1")).1).1.

Definition two_decodes : State :=
  (run [AnimationFrame;
        Commit (showing "data:image/jpeg;base64,P3");
        AnimationFrame] two_frames).1.

(** What stays true of the mounted component: at most one callback is
    requested, and then it is the one in the ref and it carries the frame
    of the last commit; the canvas is mounted exactly while that frame is
    truthy, and the ref names a canvas that exists. *)
Definition well_formed (s : State) : Prop :=
  (scheduled s = []
   \/ exists r f,
        scheduled s = [(r, f)]
        /\ frameRequestRef s = Some r
        /\ currentFrame (lastProps s) = Some f)
  /\ (canvasRef s = None <-> truthy (currentFrame (lastProps s)) = false)
  /\ (forall c, canvasRef s = Some c -> (c < length (canvases s))%nat).

End JpegView.

(** * Properties *)

Module AppSpec.
Import App Spec.

(** ** Comparison of rationals *)

Lemma lt_true (a b : Q) : JS.lt a b = true <-> (a < b)%Q.
Proof.
  unfold JS.lt. rewrite negb_true_iff.
  destruct (Qle_bool b a) eqn:E.
  - apply Qle_bool_iff in E. split; [discriminate | intros H; lra].
  - split; [intros _ | reflexivity].
    apply Qnot_le_lt. intros H. apply Qle_bool_iff in H. congruence.
Qed.

Lemma lt_false (a b : Q) : JS.lt a b = false <-> (b <= a)%Q.
Proof.
  destruct (JS.lt a b) eqn:E.
  - apply lt_true in E. split; [discriminate | intros H; lra].
  - split; [intros _ | reflexivity].
    apply Qnot_lt_le. intros H. apply lt_true in H. congruence.
Qed.

(** The fresh start time is never beyond the drift ceiling, so the second
    test of [playAudioChunk] cannot fire after the first one did. *)
Lemma restart_below_ceiling (now : Q) :
  JS.lt (now + 0.2) (now + BUFFER_TIME) = false.
Proof. apply lt_false. unfold BUFFER_TIME. lra. Qed.

(** ** The scheduler *)

(** A chunk that passes the checks of [playAudioChunk] is scheduled on the
    current context at the start time of the specification, and the clock
    moves to the end of its buffer. *)
Lemma playAudioChunk_scheduled env d s ctx buf :
  audioContextRef (audio s) = Some ctx ->
  state_of s ctx = Some running ->
  prepareBuffer env d = Ready buf ->
  playAudioChunk env d s =
    (let start :=
       spec_startTime (ctxCurrentTime env) (nextPlayTimeRef (audio s))
         (audioInitializedRef (audio s)) in
     (set_nextPlayTimeRef (start + duration buf)
        (set_audioInitializedRef true s),
      [SourceStart ctx buf start])).
Proof.
  intros Hctx Hrun Hbuf. unfold playAudioChunk, spec_startTime.
  rewrite Hctx, Hbuf. rewrite bool_decide_eq_true_2 by exact Hrun. simpl.
  destruct (audioInitializedRef (audio s)) eqn:Hinit; simpl.
  - destruct (JS.lt (nextPlayTimeRef (audio s)) (ctxCurrentTime env)) eqn:Hlt.
    + rewrite restart_below_ceiling. reflexivity.
    + destruct (JS.lt _ (nextPlayTimeRef (audio s)));
        destruct s as [se me [] cs pr]; simpl in *; subst; reflexivity.
  - rewrite restart_below_ceiling. reflexivity.
Qed.

(** The audio handler hands the chunk to [playAudioChunk] when audio is
    enabled and the sharer is somebody else. *)
Lemma on_audio_foreign env d s :
  isAudioEnabledRef (audio s) = true ->
  playAudioChunkRef (audio s) = true ->
  currentSharerIdRef (audio s) <> clientIdRef (audio s) ->
  on_audio env d s = playAudioChunk env d s.
Proof.
  intros He Hp Hne. unfold on_audio, JS.strict_eq.
  rewrite He, Hp. simpl. rewrite bool_decide_eq_false_2 by exact Hne.
  reflexivity.
Qed.

Lemma prepare_chunk20ms t ms :
  prepareBuffer (envAt t ms) chunk20ms = Ready silence.
Proof. vm_compute. reflexivity. Qed.


(** Case analysis on the event, with the names the proofs below use for
    the payloads. *)
Ltac event_cases ev :=
  destruct ev as [| | cd | n | fd | sfps | sid tgt | | | msg | rl ft
                 | d | | | msg | | | ctx ok | ctx st].

Lemma run_cons env ev rest s :
  run ((env, ev) :: rest) s =
    ((run rest (handle env ev s).1).1,
     (handle env ev s).2 ++ (run rest (handle env ev s).1).2).
Proof.
  cbn [run]. destruct (handle env ev s) as [s1 out1]. cbn [fst snd].
  destruct (run rest s1); reflexivity.
Qed.

Lemma run_app evs1 evs2 s :
  run (evs1 ++ evs2) s =
    ((run evs2 (run evs1 s).1).1,
     (run evs1 s).2 ++ (run evs2 (run evs1 s).1).2).
Proof.
  revert s. induction evs1 as [| [env ev] evs1 IH]; intros s.
  - cbn [app run fst snd]. destruct (run evs2 s); reflexivity.
  - rewrite <- app_comm_cons, !run_cons, IH. cbn [fst snd].
    rewrite app_assoc. reflexivity.
Qed.



(** What [playAudioChunk] can do: nothing, report an exception, or schedule
    the prepared buffer at the specified start time. *)
Lemma playAudioChunk_cases env d s :
  (exists what,
      playAudioChunk env d s = (s, []) \/
      playAudioChunk env d s = (s, [ConsoleError what]))
  \/ (exists ctx buf,
        audioContextRef (audio s) = Some ctx
        /\ state_of s ctx = Some running
        /\ prepareBuffer env d = Ready buf
        /\ playAudioChunk env d s =
           (let start :=
              spec_startTime (ctxCurrentTime env) (nextPlayTimeRef (audio s))
                (audioInitializedRef (audio s)) in
            (set_nextPlayTimeRef (start + duration buf)
               (set_audioInitializedRef true s),
             [SourceStart ctx buf start]))).
Proof.
  destruct (audioContextRef (audio s)) as [ctx |] eqn:Hctx.
  - destruct (decide (state_of s ctx = Some running)) as [Hrun | Hrun].
    + destruct (prepareBuffer env d) as [| | buf] eqn:Hbuf.
      * left. exists "音声再生エラー:". right. unfold playAudioChunk.
        rewrite Hctx, Hbuf, bool_decide_eq_true_2 by exact Hrun. reflexivity.
      * left. exists "". left. unfold playAudioChunk.
        rewrite Hctx, Hbuf, bool_decide_eq_true_2 by exact Hrun. reflexivity.
      * right. exists ctx, buf. repeat split; try assumption.
        apply playAudioChunk_scheduled; assumption.
    + left. exists "". left. unfold playAudioChunk.
      rewrite Hctx, bool_decide_eq_false_2 by exact Hrun. reflexivity.
  - left. exists "". left. unfold playAudioChunk. rewrite Hctx. reflexivity.
Qed.

(** The audio handler either leaves the state alone or is [playAudioChunk]. *)
Lemma on_audio_cases env d s :
  on_audio env d s = (s, []) \/ on_audio env d s = playAudioChunk env d s.
Proof.
  unfold on_audio.
  destruct (isAudioEnabledRef (audio s)); simpl; [| left; reflexivity].
  destruct (JS.strict_eq _ _); [left; reflexivity |].
  destruct (playAudioChunkRef (audio s)); [right | left]; reflexivity.
Qed.

(** A start of a source among the effects of an audio event pins down the
    whole step. *)
Lemma audio_event_scheduled env d s s' out ctx buf start :
  handle env (AudioChunk d) s = (s', out) ->
  SourceStart ctx buf start ∈ out ->
  start = spec_startTime (ctxCurrentTime env) (nextPlayTimeRef (audio s))
            (audioInitializedRef (audio s))
  /\ prepareBuffer env d = Ready buf
  /\ state_of s ctx = Some running
  /\ audioContextRef (audio s) = Some ctx
  /\ s' = set_nextPlayTimeRef (start + duration buf)
            (set_audioInitializedRef true s)
  /\ out = [SourceStart ctx buf start].
Proof.
  cbn [handle]. intros Hstep Hin.
  destruct (on_audio_cases env d s) as [E | E]; rewrite E in Hstep.
  { inversion Hstep; subst. inversion Hin. }
  destruct (playAudioChunk_cases env d s)
    as [(what & [E' | E']) | (ctx' & buf' & Hctx & Hrun & Hbuf & E')];
    rewrite E' in Hstep; cbv zeta in Hstep; inversion Hstep; subst; clear Hstep.
  - inversion Hin.
  - apply list_elem_of_singleton in Hin. discriminate.
  - apply list_elem_of_singleton in Hin. inversion Hin; subst.
    repeat split; assumption.
Qed.










(** ** Session state *)

(** Every handler keeps the refs read by the audio handler equal to the
    session cells. *)
Lemma handle_refs_in_sync env ev s :
  refs_in_sync s -> refs_in_sync (handle env ev s).1.
Proof.
  unfold refs_in_sync. intros [Hsharer Hclient].
  event_cases ev;
    cbn [handle fst]; try (split; assumption).
  all: try (unfold on_connected, on_frame, on_sharing_started,
              on_sharing_stopped, unlockAudio, toggleAudio, ensureContext,
              on_resume_settled;
            repeat case_match; simplify_eq;
            split; first [assumption | reflexivity | simpl; assumption];
            fail).
  destruct (on_audio_cases env d s) as [E | E]; rewrite E;
    [split; assumption |].
  destruct (playAudioChunk_cases env d s)
    as [(what & [E' | E']) | (ctx & buf & _ & _ & _ & E')];
    rewrite E'; split; assumption.
Qed.

Lemma run_refs_in_sync evs s :
  refs_in_sync s -> refs_in_sync (run evs s).1.
Proof.
  revert s. induction evs as [| [env ev] evs IH]; intros s Hs; [exact Hs |].
  rewrite run_cons. cbn [fst]. apply IH, handle_refs_in_sync, Hs.
Qed.

Lemma init_refs_in_sync t : refs_in_sync (init t).
Proof. split; reflexivity. Qed.

(** The audio handler drops the chunk whenever the two refs agree. *)
Lemma on_audio_self env d s :
  currentSharerIdRef (audio s) = clientIdRef (audio s) ->
  on_audio env d s = (s, []).
Proof.
  intros Heq. unfold on_audio, JS.strict_eq.
  rewrite bool_decide_eq_true_2 by exact Heq.
  destruct (isAudioEnabledRef (audio s)); reflexivity.
Qed.

(** C1. An audio chunk that arrives while the local identity equals the
    active sharer identity is discarded and nothing is scheduled: the
    handler compares the two refs anew for every chunk, and in every state
    the client can reach the refs are the identities of the session. A run
    with such a chunk is the run without it. *)
Theorem self_echo_suppressed :
  (forall env d s,
      currentSharerIdRef (audio s) = clientIdRef (audio s) ->
      handle env (AudioChunk d) s = (s, []))
  /\ (forall t evs env d,
        let s := (run evs (init t)).1 in
        currentSharerId (session s) = clientId (session s) ->
        handle env (AudioChunk d) s = (s, []))
  /\ (forall t pre env d post,
        let s := (run pre (init t)).1 in
        currentSharerId (session s) = clientId (session s) ->
        run (pre ++ (env, AudioChunk d) :: post) (init t)
        = run (pre ++ post) (init t)).
Proof.
  assert (Hreach : forall t evs env d,
             let s := (run evs (init t)).1 in
             currentSharerId (session s) = clientId (session s) ->
             handle env (AudioChunk d) s = (s, [])).
  { intros t evs env d s Heq. cbn [handle]. apply on_audio_self.
    destruct (run_refs_in_sync evs (init t) (init_refs_in_sync t))
      as [Hsharer Hclient].
    fold s in Hsharer, Hclient. congruence. }
  split; [| split].
  - intros env d s Heq. cbn [handle]. apply on_audio_self, Heq.
  - exact Hreach.
  - intros t pre env d post s Heq.
    pose proof (Hreach t pre env d Heq) as Hdrop. subst s.
    rewrite !run_app, run_cons, Hdrop. reflexivity.
Qed.

Lemma self_echo_suppressed_witness :
  handle (envAt 3 0) (AudioChunk chunk20ms) (run sharing_myself (init 0)).1
  = ((run sharing_myself (init 0)).1, []).
Proof.
  apply (proj1 (proj2 self_echo_suppressed) 0 sharing_myself (envAt 3 0)
           chunk20ms).
  reflexivity.
Defined.

(** ** Displayed frame *)







(** ** Disconnect *)



(** ** Frame throughput *)

(** One frame event: the counter goes up by one; when a second or more has
    passed since the last publication the rate is published and the
    counter and the window start are reset. *)
Lemma on_frame_counter env d s :
  let c := fpsCounterRef (metrics s) in
  let elapsed := dateNow env - lastTime c in
  let s' := on_frame env d s in
  (1000 <= elapsed ->
   fps (metrics s')
   = JS.Math_round (inject_Z ((count c + 1) * 1000) / inject_Z elapsed)
   /\ fpsCounterRef (metrics s') = {| count := 0; lastTime := dateNow env |})
  /\ (elapsed < 1000 ->
      fps (metrics s') = fps (metrics s)
      /\ fpsCounterRef (metrics s')
         = {| count := count c + 1; lastTime := lastTime c |}).
Proof.
  intros c elapsed s'. subst s'. unfold on_frame.
  cbn [set_fpsCounterRef setCurrentFrame set_frameInfoRef with_metrics
       with_session metrics fpsCounterRef count lastTime].
  fold c. fold elapsed. split; intros Hel.
  - apply Z.leb_le in Hel. rewrite Hel. split; reflexivity.
  - apply Z.leb_gt in Hel. rewrite Hel. split; reflexivity.
Qed.

(** Frames that all arrive within the current window only count. *)
Lemma frames_within_window fs s :
  Forall (fun f => dateNow f.1 - lastTime (fpsCounterRef (metrics s)) < 1000)
         fs ->
  let s' := (run (frame_events fs) s).1 in
  fpsCounterRef (metrics s')
  = {| count := count (fpsCounterRef (metrics s)) + Z.of_nat (length fs);
       lastTime := lastTime (fpsCounterRef (metrics s)) |}
  /\ fps (metrics s') = fps (metrics s).
Proof.
  revert s. induction fs as [| [env d] fs IH]; intros s Hall.
  - cbn. rewrite Z.add_0_r. destruct (fpsCounterRef (metrics s)). split; reflexivity.
  - inversion Hall as [| ? ? Hhead Htail]; subst. cbn [fst] in Hhead.
    destruct (on_frame_counter env d s) as [_ Hin].
    specialize (Hin Hhead) as [Hfps Hcnt].
    cbn [frame_events map fst snd]. rewrite run_cons. cbn [handle fst].
    specialize (IH (on_frame env d s)). rewrite Hcnt in IH. cbn [lastTime count] in IH.
    specialize (IH Htail) as [IHc IHf].
    fold (frame_events fs). cbv zeta. rewrite IHc, IHf, Hfps. split; [| reflexivity].
    f_equal. rewrite length_cons. lia.
Qed.

(** C7. Every frame event adds one to the counter; the first frame event
    that arrives a second or more after the last publication publishes
    [round(count * 1000 / elapsed)] and resets the counter and the window
    start. With [N] frame events in the window (the publishing one
    included) the published value is [round(N * 1000 / elapsed)]. *)
Theorem fps_published_once_per_window :
  (forall env d s,
      let c := fpsCounterRef (metrics s) in
      let elapsed := dateNow env - lastTime c in
      let s' := (handle env (Frame d) s).1 in
      (1000 <= elapsed ->
       fps (metrics s')
       = JS.Math_round (inject_Z ((count c + 1) * 1000) / inject_Z elapsed)
       /\ fpsCounterRef (metrics s')
          = {| count := 0; lastTime := dateNow env |})
      /\ (elapsed < 1000 ->
          fps (metrics s') = fps (metrics s)
          /\ fpsCounterRef (metrics s')
             = {| count := count c + 1; lastTime := lastTime c |}))
  /\ (forall fs env d s,
        let start := lastTime (fpsCounterRef (metrics s)) in
        let N := Z.of_nat (length fs) + 1 in
        count (fpsCounterRef (metrics s)) = 0 ->
        Forall (fun f => dateNow f.1 - start < 1000) fs ->
        1000 <= dateNow env - start ->
        let s' := (run (frame_events (fs ++ [(env, d)])) s).1 in
        fps (metrics s')
        = JS.Math_round (inject_Z (N * 1000) / inject_Z (dateNow env - start))
        /\ fpsCounterRef (metrics s')
           = {| count := 0; lastTime := dateNow env |}).
Proof.
  split.
  - intros env d s. cbn [handle fst]. apply on_frame_counter.
  - intros fs env d s start N Hzero Hin Hout s'. subst s'.
    unfold frame_events. rewrite map_app, run_app. cbn [fst map snd].
    fold (frame_events fs).
    destruct (frames_within_window fs s Hin) as [Hcnt _].
    rewrite run_cons. cbn [run fst handle].
    destruct (on_frame_counter env d (run (frame_events fs) s).1) as [Hpub _].
    rewrite Hcnt in Hpub. cbn [count lastTime] in Hpub.
    specialize (Hpub Hout). rewrite Hzero in Hpub. exact Hpub.
Qed.

Lemma fps_published_once_per_window_witness :
  fps (metrics
         (run (frame_events (early_frames ++ [(envAt 0 1003, frameP1)]))
            (init 0)).1) = 3.
Proof.
  refine (proj1 (proj2 fps_published_once_per_window early_frames
                   (envAt 0 1003) frameP1 (init 0) _ _ _)).
  - reflexivity.
  - repeat constructor.
  - vm_compute. discriminate.
Defined.

(** ** Message log *)

Lemma slice_last_length {A : Type} (n : nat) (l : list A) :
  (length (JS.slice_last n l) <= n)%nat.
Proof. unfold JS.slice_last. rewrite length_drop. lia. Qed.

Lemma slice_last_short {A : Type} (n : nat) (l : list A) :
  (length l <= n)%nat -> JS.slice_last n l = l.
Proof.
  intros Hle. unfold JS.slice_last.
  replace (length l - n)%nat with 0%nat by lia. reflexivity.
Qed.

(** Trimming before appending does not change what is kept. *)
Lemma slice_last_snoc {A : Type} (n : nat) (l : list A) (x : A) :
  (1 <= n)%nat ->
  JS.slice_last n (JS.slice_last n l ++ [x]) = JS.slice_last n (l ++ [x]).
Proof.
  intros Hn. destruct (decide (length l <= n)%nat) as [Hle | Hgt].
  - rewrite (slice_last_short n l Hle). reflexivity.
  - unfold JS.slice_last. rewrite !length_app, length_drop. cbn [length].
    rewrite (drop_app_le (drop _ l)) by (rewrite length_drop; lia).
    rewrite drop_drop, (drop_app_le l) by lia.
    f_equal. f_equal. lia.
Qed.

Lemma addMessage_messages env txt ty s :
  messages (session (addMessage env txt ty s))
  = JS.slice_last 50 (messages (session s) ++ [entry (env, txt, ty)]).
Proof. reflexivity. Qed.

Lemma addMessages_snoc calls call s :
  addMessages (calls ++ [call]) s
  = addMessage call.1.1 call.1.2 call.2 (addMessages calls s).
Proof.
  revert s. induction calls as [| c calls IH]; intros s; [reflexivity |].
  cbn [app addMessages]. apply IH.
Qed.

(** Every handler leaves the log alone or goes through [addMessage], so the
    bound holds in every state of the client. *)
Lemma handle_log_bounded env ev s :
  (length (messages (session s)) <= 50)%nat ->
  (length (messages (session (handle env ev s).1)) <= 50)%nat.
Proof.
  intros Hlen.
  event_cases ev;
    cbn [handle fst]; try exact Hlen;
    try (rewrite addMessage_messages; apply slice_last_length).
  all: try (unfold on_connected, on_frame, on_sharing_started,
              on_sharing_stopped, unlockAudio, toggleAudio, ensureContext,
              on_resume_settled;
            repeat case_match; simplify_eq;
            first [ exact Hlen
                  | rewrite addMessage_messages; apply slice_last_length ];
            fail).
  - destruct (on_audio_cases env d s) as [E | E]; rewrite E; [exact Hlen |].
    destruct (playAudioChunk_cases env d s)
      as [(what & [E' | E']) | (ctx & buf & _ & _ & _ & E')];
      rewrite E'; exact Hlen.
  - unfold toggleAudio.
    destruct (isConnected (session s)); [| exact Hlen].
    destruct (isAudioEnabled (audio s)); [exact Hlen |].
    cbn [negb]. destruct (ensureContext env _) as [[ctx s1] |]; [| exact Hlen].
    cbn [fst]. rewrite addMessage_messages. apply slice_last_length.
Qed.

Lemma run_log_bounded evs s :
  (length (messages (session s)) <= 50)%nat ->
  (length (messages (session (run evs s).1)) <= 50)%nat.
Proof.
  revert s. induction evs as [| [env ev] evs IH]; intros s Hlen; [exact Hlen |].
  rewrite run_cons. cbn [fst]. apply IH, handle_log_bounded, Hlen.
Qed.

(** C10. After every call of [addMessage] the log holds at most 50
    entries, and they are the most recent ones in the order they were
    added: after any non-empty sequence of calls the log is the last 50
    entries of the previous log followed by the new entries. No handler
    writes the log in another way, so the bound holds after every event. *)
Theorem message_log_keeps_last_50 :
  (forall env txt ty s,
      let log := messages (session (addMessage env txt ty s)) in
      log = JS.slice_last 50 (messages (session s) ++ [entry (env, txt, ty)])
      /\ (length log <= 50)%nat)
  /\ (forall calls call s,
        let log := messages (session (addMessages (calls ++ [call]) s)) in
        log = JS.slice_last 50
                (messages (session s) ++ map entry (calls ++ [call]))
        /\ (length log <= 50)%nat)
  /\ (forall t calls,
        let log := messages (session (addMessages calls (init t))) in
        log = drop (length calls - 50) (map entry calls)
        /\ (length log <= 50)%nat)
  /\ (forall t evs,
        (length (messages (session (run evs (init t)).1)) <= 50)%nat).
Proof.
  assert (Hseq : forall calls call s,
             messages (session (addMessages (calls ++ [call]) s))
             = JS.slice_last 50
                 (messages (session s) ++ map entry (calls ++ [call]))).
  { induction calls as [| c calls IH] using rev_ind; intros call s.
    - destruct call as [[env txt] ty]. reflexivity.
    - rewrite addMessages_snoc, addMessage_messages, IH.
      destruct call as [[env txt] ty]. cbn [fst snd].
      rewrite slice_last_snoc by lia.
      rewrite (map_app entry (calls ++ [c])), app_assoc. reflexivity. }
  split; [| split; [| split]].
  4: { intros t evs. apply run_log_bounded. cbn. lia. }
  - intros env txt ty s log. subst log. rewrite addMessage_messages.
    split; [reflexivity | apply slice_last_length].
  - intros calls call s log. subst log. rewrite Hseq.
    split; [reflexivity | apply slice_last_length].
  - intros t calls log. subst log.
    destruct calls as [| c calls] using rev_ind.
    + split; [reflexivity | cbn; lia].
    + rewrite Hseq. cbn [init session messages app].
      unfold JS.slice_last. rewrite length_map.
      split; [reflexivity |]. rewrite length_drop, length_map. lia.
Qed.

(** ** Activation gate *)

(** A context that is already in the ref is reused as it is. *)
Lemma ensureContext_present env s ctx :
  audioContextRef (audio s) = Some ctx ->
  ensureContext env s = Some (ctx, s).
Proof. intros H. unfold ensureContext. rewrite H. reflexivity. Qed.

(** [unlockAudio] only touches the unlocked flag and the pending promises
    when the ref holds a context. *)
Lemma unlockAudio_reuses env s ctx :
  audioContextRef (audio s) = Some ctx ->
  let s' := (unlockAudio env s).1 in
  audioContextRef (audio s') = Some ctx
  /\ contexts s' = contexts s
  /\ nextPlayTimeRef (audio s') = nextPlayTimeRef (audio s)
  /\ audioInitializedRef (audio s') = audioInitializedRef (audio s).
Proof.
  intros Hctx. unfold unlockAudio.
  rewrite (ensureContext_present env s ctx Hctx).
  destruct (state_of s ctx) as [[] |]; repeat split; assumption.
Qed.

(** A flip of the unlocked flag happens in [unlockAudio] on a running
    context or in the fulfilled continuation of [resume()] on a running
    context, nowhere else. *)
Lemma unlocked_only_when_running env ev s :
  audioUnlocked (audio s) = false ->
  audioUnlocked (audio (handle env ev s).1) = true ->
  (ev = UnlockAudio
   /\ exists ctx,
       audioContextRef (audio (handle env ev s).1) = Some ctx
       /\ state_of (handle env ev s).1 ctx = Some running)
  \/ (exists ctx,
        ev = ResumeSettled ctx true
        /\ ctx ∈ pendingResume s
        /\ state_of s ctx = Some running).
Proof.
  intros Hlocked.
  event_cases ev;
    cbn [handle fst]; try (intros Hflip; exfalso; congruence).
  all: try (unfold on_connected, on_frame, toggleAudio, ensureContext;
            repeat case_match; simplify_eq; cbn; congruence).
  - destruct (on_audio_cases env d s) as [E | E]; rewrite E;
      [cbn; congruence |].
    destruct (playAudioChunk_cases env d s)
      as [(what & [E' | E']) | (ctx & buf & _ & _ & _ & E')];
      rewrite E'; cbn; congruence.
  - intros Hflip. left. split; [reflexivity |]. revert Hflip.
    unfold unlockAudio.
    destruct (ensureContext env s) as [[ctx s1] |] eqn:Hens;
      [| cbn; congruence].
    assert (Href : audioContextRef (audio s1) = Some ctx
                   /\ audioUnlocked (audio s1) = audioUnlocked (audio s)).
    { unfold ensureContext in Hens. repeat case_match; simplify_eq;
        split; (assumption || reflexivity). }
    destruct Href as [Href Hsame].
    destruct (state_of s1 ctx) as [[] |] eqn:Hst; cbn [fst]; intros Hflip.
    + exfalso. cbn in Hflip. congruence.
    + exists ctx. split; [exact Href | exact Hst].
    + exfalso. congruence.
    + exfalso. congruence.
  - intros Hflip. right. exists ctx. revert Hflip. unfold on_resume_settled.
    destruct (bool_decide (ctx ∈ pendingResume s)) eqn:Hpend;
      [| cbn; congruence].
    apply bool_decide_eq_true_1 in Hpend.
    destruct ok; [| cbn; congruence].
    destruct (bool_decide (state_of _ ctx = Some running)) eqn:Hrun;
      [| cbn; congruence].
    apply bool_decide_eq_true_1 in Hrun. intros _.
    repeat split; assumption.
Qed.

(** After [unlockAudio] the ref holds a context unless the constructor
    threw; a context is constructed only when the ref was empty. *)
Lemma unlockAudio_context env s :
  let s' := (unlockAudio env s).1 in
  match audioContextRef (audio s), newAudioContext env with
  | Some ctx, _ =>
      audioContextRef (audio s') = Some ctx /\ contexts s' = contexts s
  | None, Some st =>
      audioContextRef (audio s') = Some (length (contexts s))
      /\ contexts s' = contexts s ++ [st]
  | None, None =>
      audioContextRef (audio s') = None /\ contexts s' = contexts s
  end.
Proof.
  destruct (audioContextRef (audio s)) as [ctx |] eqn:Hctx.
  - destruct (unlockAudio_reuses env s ctx Hctx) as (H1 & H2 & _).
    split; assumption.
  - unfold unlockAudio, ensureContext. rewrite Hctx.
    destruct (newAudioContext env) as [st |]; [| split; [exact Hctx | reflexivity]].
    cbv zeta. repeat case_match; split; reflexivity.
Qed.

(** C8. [unlockAudio] reuses the context it finds in the ref: a second
    call leaves the same instance there and constructs nothing (a context
    is constructed only when the ref is empty). The unlocked flag is not
    set by a request: on a suspended context the call only issues
    [resume()]. The flag turns true only in a step that sees the context
    running, which is either [unlockAudio] itself on a running context or
    the fulfilled continuation of [resume()]. *)
Theorem unlock_idempotent_and_confirmed :
  (forall env s ctx,
      audioContextRef (audio s) = Some ctx ->
      let s' := (unlockAudio env s).1 in
      audioContextRef (audio s') = Some ctx
      /\ contexts s' = contexts s
      /\ nextPlayTimeRef (audio s') = nextPlayTimeRef (audio s)
      /\ audioInitializedRef (audio s') = audioInitializedRef (audio s))
  /\ (forall env1 env2 s,
        let s1 := (unlockAudio env1 s).1 in
        let s2 := (unlockAudio env2 s1).1 in
        audioContextRef (audio s) <> None \/ newAudioContext env1 <> None ->
        exists ctx,
          audioContextRef (audio s1) = Some ctx
          /\ audioContextRef (audio s2) = Some ctx
          /\ contexts s2 = contexts s1)
  /\ (forall env s ctx,
        let s' := (unlockAudio env s).1 in
        audioContextRef (audio s') = Some ctx ->
        state_of s' ctx = Some suspended ->
        audioUnlocked (audio s') = audioUnlocked (audio s)
        /\ (unlockAudio env s).2 = [Resume ctx])
  /\ (forall env ev s,
        audioUnlocked (audio s) = false ->
        audioUnlocked (audio (handle env ev s).1) = true ->
        (ev = UnlockAudio
         /\ exists ctx,
             audioContextRef (audio (handle env ev s).1) = Some ctx
             /\ state_of (handle env ev s).1 ctx = Some running)
        \/ (exists ctx,
              ev = ResumeSettled ctx true
              /\ ctx ∈ pendingResume s
              /\ state_of s ctx = Some running))
  /\ (forall env s ctx,
        ctx ∈ pendingResume s ->
        state_of s ctx = Some running ->
        audioUnlocked (audio (handle env (ResumeSettled ctx true) s).1) = true).
Proof.
  split; [exact unlockAudio_reuses |].
  split; [| split; [| split; [exact unlocked_only_when_running |]]].
  - intros env1 env2 s s1 s2 Hsome.
    assert (Hs1 : exists ctx, audioContextRef (audio s1) = Some ctx).
    { pose proof (unlockAudio_context env1 s) as H. cbv zeta in H. fold s1 in H.
      destruct (audioContextRef (audio s)) as [ctx |].
      - exists ctx. apply H.
      - destruct (newAudioContext env1) as [st |].
        + eexists. apply H.
        + destruct Hsome as [Hsome | Hsome]; congruence. }
    destruct Hs1 as [ctx Hctx]. exists ctx.
    destruct (unlockAudio_reuses env2 s1 ctx Hctx) as (H1 & H2 & _).
    repeat split; assumption.
  - intros env s ctx s' Href Hst. subst s'. revert Href Hst.
    unfold unlockAudio.
    destruct (ensureContext env s) as [[ctx' s1] |] eqn:Hens;
      [| unfold ensureContext in Hens; repeat case_match; simplify_eq;
         cbn; congruence].
    assert (Hs1 : audioContextRef (audio s1) = Some ctx'
                  /\ audioUnlocked (audio s1) = audioUnlocked (audio s)).
    { unfold ensureContext in Hens. repeat case_match; simplify_eq;
        split; (assumption || reflexivity). }
    destruct Hs1 as [Href1 Hsame].
    destruct (state_of s1 ctx') as [[] |] eqn:Hst1; cbn [fst snd].
    + cbn. intros Href Hst. split; congruence.
    + cbn. unfold state_of in *. cbn. congruence.
    + congruence.
    + congruence.
  - intros env s ctx Hpend Hrun. cbn [handle]. unfold on_resume_settled.
    rewrite bool_decide_eq_true_2 by exact Hpend.
    rewrite bool_decide_eq_true_2 by exact Hrun. reflexivity.
Qed.

Lemma unlock_idempotent_and_confirmed_witness :
  audioUnlocked (audio unlock_requested) = false
  /\ audioUnlocked
       (audio (handle envSuspended (ResumeSettled 0 true) device_started).1)
     = true
  /\ audioContextRef (audio (unlockAudio envSuspended unlock_requested).1)
     = Some 0%nat.
Proof.
  split; [reflexivity |]. split.
  - apply (proj2 (proj2 (proj2 (proj2 unlock_idempotent_and_confirmed)))
             envSuspended device_started 0%nat).
    + vm_compute. apply list_elem_of_here.
    + reflexivity.
  - apply (proj1 unlock_idempotent_and_confirmed envSuspended
             unlock_requested 0%nat).
    reflexivity.
Defined.

End AppSpec.

Module H264Spec.
Import H264View.

(** ** Decoder lifecycle *)

(** The ref and the platform agree on the live decoders, and no decoder
    exists while the component is rendered as not sharing. *)
Lemma commit_decoder_invariant first env p s :
  live s = owned s /\ (isSharing (lastProps s) = false -> jmuxerRef s = None) ->
  let s' := (commit first env p s).1 in
  live s' = owned s' /\ (isSharing (lastProps s') = false -> jmuxerRef s' = None).
Proof.
  destruct s as [jm vr rd fc [ls lf] cn lv vs], p as [sh cf].
  unfold owned. cbn. intros [Hlive Hstop].
  unfold commit, reconcile, initEffect, cleanupEffect, feedEffect, owned.
  cbn. subst lv.
  destruct jm as [j |], sh, ls, first; cbn;
    try (specialize (Hstop eq_refl); discriminate);
    repeat (case_match; cbn in *; simplify_eq);
    try rewrite decide_False by congruence;
    try rewrite decide_True by congruence;
    split; (reflexivity || congruence || (intros; reflexivity) || idtac).
Qed.

Lemma reachable_decoder_invariant s :
  reachable s ->
  live s = owned s /\ (isSharing (lastProps s) = false -> jmuxerRef s = None).
Proof.
  induction 1 as [env p | env p s _ IH].
  - apply (commit_decoder_invariant true env p unmounted).
    split; [reflexivity | intros _; reflexivity].
  - apply (commit_decoder_invariant false env p s IH).
Qed.

(** A decoder is constructed only in a commit that renders a sharing
    session with a frame, and only when the ref is empty. *)
Lemma creation_needs_frame first env p s :
  creations (commit first env p s).2 <> [] ->
  isSharing p = true /\ currentFrame p <> None /\ jmuxerRef s = None.
Proof.
  destruct s as [jm vr rd fc [ls lf] cn lv vs], p as [sh cf].
  unfold commit, reconcile, initEffect, cleanupEffect, feedEffect.
  cbn. intros Hcreated.
  destruct sh, cf as [f |], jm as [j |]; repeat split; try discriminate;
    exfalso; apply Hcreated; clear Hcreated;
    repeat (case_match; cbn in *; simplify_eq); reflexivity.
Qed.

(** The first new frame of a sharing session without a decoder constructs
    one, bound to the video element, and feeds it that frame. *)
Lemma first_frame_creates env f s :
  jmuxerRef s = None ->
  same_frame (Some f) (currentFrame (lastProps s)) = false ->
  jmuxerThrows env = false ->
  let r := update env {| isSharing := true; currentFrame := Some f |} s in
  jmuxerRef r.1 = Some (constructed s)
  /\ creations r.2 = [constructed s]
  /\ feeds r.2 = expected_feeds (constructed s) [(env, f)].
Proof.
  destruct s as [jm vr rd fc [ls lf] cn lv vs].
  cbn. intros -> Hnew Hok.
  unfold update, commit, reconcile, initEffect, cleanupEffect, feedEffect,
    expected_feeds, payload.
  destruct lf as [g |], ls, vr as [node |]; cbn in *;
    rewrite ?Hnew, ?Hok; cbn;
    destruct (truthy_image f) as [b64 |]; cbn;
    try destruct (atob env b64) as [bytes |]; cbn;
    try destruct (feedThrows env); cbn; repeat split; reflexivity.
Qed.

(** One new frame while a decoder exists and sharing goes on: the frame is
    fed to that decoder, which stays in place. *)
Lemma frame_fed_to_decoder env f s j :
  jmuxerRef s = Some j ->
  same_frame (Some f) (currentFrame (lastProps s)) = false ->
  let r := update env {| isSharing := true; currentFrame := Some f |} s in
  jmuxerRef r.1 = Some j
  /\ currentFrame (lastProps r.1) = Some f
  /\ creations r.2 = []
  /\ feeds r.2 = expected_feeds j [(env, f)].
Proof.
  destruct s as [jm vr rd fc [ls lf] cn lv vs].
  cbn. intros -> Hnew.
  unfold update, commit, reconcile, initEffect, cleanupEffect, feedEffect,
    expected_feeds, payload.
  destruct lf as [g |], ls, vr as [node |]; cbn in *;
    rewrite ?Hnew; cbn;
    destruct (truthy_image f) as [b64 |]; cbn;
    try destruct (atob env b64) as [bytes |]; cbn;
    try destruct (feedThrows env); cbn; repeat split; reflexivity.
Qed.

Lemma view_run_cons env p rest s :
  run ((env, p) :: rest) s =
    ((run rest (update env p s).1).1,
     (update env p s).2 ++ (run rest (update env p s).1).2).
Proof.
  cbn [run]. destruct (update env p s) as [s1 e1]. cbn [fst snd].
  destruct (run rest s1); reflexivity.
Qed.

Lemma feeds_app es1 es2 : feeds (es1 ++ es2) = feeds es1 ++ feeds es2.
Proof. apply omap_app. Qed.

Lemma creations_app es1 es2 :
  creations (es1 ++ es2) = creations es1 ++ creations es2.
Proof. apply omap_app. Qed.

(** A run of new frames is fed, frame by frame and in order, to the decoder
    that was there at the start. *)
Lemma frames_fed_in_order fs : forall s j,
  jmuxerRef s = Some j ->
  all_new (currentFrame (lastProps s)) fs = true ->
  let r := run (sharing_frames fs) s in
  jmuxerRef r.1 = Some j
  /\ creations r.2 = []
  /\ feeds r.2 = expected_feeds j fs.
Proof.
  induction fs as [| [env f] fs IH]; intros s j Hj Hnew.
  - cbn. repeat split. exact Hj.
  - cbn [all_new snd] in Hnew. apply andb_true_iff in Hnew as [Hhead Htail].
    apply negb_true_iff in Hhead.
    destruct (frame_fed_to_decoder env f s j Hj Hhead)
      as (Hj1 & Hlast & Hc1 & Hf1).
    cbn [sharing_frames map fst snd]. rewrite view_run_cons. cbn [fst snd].
    fold (sharing_frames fs).
    specialize (IH _ j Hj1). rewrite Hlast in IH.
    specialize (IH Htail) as (Hj2 & Hc2 & Hf2).
    rewrite creations_app, feeds_app, Hc1, Hc2, Hf1, Hf2.
    repeat split; [exact Hj2 |].
    unfold expected_feeds. rewrite <- omap_app. reflexivity.
Qed.

(** When the component is rendered as not sharing, the decoder of a
    reachable state is destroyed and nothing is left alive. *)
Lemma stop_destroys env cf s j :
  reachable s ->
  jmuxerRef s = Some j ->
  let r := update env {| isSharing := false; currentFrame := cf |} s in
  jmuxerRef r.1 = None /\ live r.1 = [] /\ Destroyed j ∈ r.2.
Proof.
  intros Hreach Hj.
  destruct (reachable_decoder_invariant s Hreach) as [Hlive Hstop].
  destruct s as [jm vr rd fc [ls lf] cn lv vs].
  cbn in *. subst jm. unfold owned in Hlive. cbn in Hlive. subst lv.
  destruct ls; [| specialize (Hstop eq_refl); discriminate].
  unfold update, commit, reconcile, initEffect, cleanupEffect, feedEffect.
  cbn. repeat (case_match; cbn in *; simplify_eq);
    rewrite ?decide_False by congruence;
    repeat split; try reflexivity;
    repeat (apply list_elem_of_here || apply list_elem_of_further).
Qed.

(** A constructor that throws is reported and leaves the component
    without a decoder, nothing fed, ready to try again. *)
Lemma creation_failure_logged env f s :
  jmuxerRef s = None ->
  same_frame (Some f) (currentFrame (lastProps s)) = false ->
  jmuxerThrows env = true ->
  let r := update env {| isSharing := true; currentFrame := Some f |} s in
  r.2 = [ConsoleError "jmuxer初期化エラー:"]
  /\ jmuxerRef r.1 = None
  /\ live r.1 = live s
  /\ currentFrame (lastProps r.1) = Some f.
Proof.
  destruct s as [jm vr rd fc [ls lf] cn lv vs].
  cbn. intros -> Hnew Hthrow.
  unfold update, commit, reconcile, initEffect, cleanupEffect, feedEffect.
  destruct lf as [g |], ls, vr as [node |]; cbn in *;
    rewrite ?Hnew, ?Hthrow; cbn;
    destruct (truthy_image f) as [b64 |]; cbn; repeat split; reflexivity.
Qed.

(** C9. The decoder of the H.264 view is not constructed by a mount
    without a frame; a construction happens only in a commit that renders
    a sharing session with a frame while the ref is empty, and the first
    new frame of such a session does construct it and is fed to it. In
    every reachable state the live decoders are the one in the ref, so at
    most one. While sharing goes on every new frame is fed to that same
    decoder, in the order of arrival. A commit that renders the session
    as stopped calls [destroy()] on it and leaves none alive. A constructor
    that throws is logged and leaves the component ready for the next
    frame. *)
Theorem decoder_lifecycle :
  (forall env sharing,
      let r := mount env {| isSharing := sharing; currentFrame := None |} in
      jmuxerRef r.1 = None /\ live r.1 = [] /\ creations r.2 = [])
  /\ (forall first env p s,
        creations (commit first env p s).2 <> [] ->
        isSharing p = true /\ currentFrame p <> None /\ jmuxerRef s = None)
  /\ (forall env f s,
        jmuxerRef s = None ->
        same_frame (Some f) (currentFrame (lastProps s)) = false ->
        jmuxerThrows env = false ->
        let r := update env {| isSharing := true; currentFrame := Some f |} s in
        jmuxerRef r.1 = Some (constructed s)
        /\ creations r.2 = [constructed s]
        /\ feeds r.2 = expected_feeds (constructed s) [(env, f)])
  /\ (forall s,
        reachable s ->
        live s = owned s /\ (length (live s) <= 1)%nat)
  /\ (forall fs s j,
        jmuxerRef s = Some j ->
        all_new (currentFrame (lastProps s)) fs = true ->
        let r := run (sharing_frames fs) s in
        jmuxerRef r.1 = Some j
        /\ creations r.2 = []
        /\ feeds r.2 = expected_feeds j fs)
  /\ (forall env cf s j,
        reachable s ->
        jmuxerRef s = Some j ->
        let r := update env {| isSharing := false; currentFrame := cf |} s in
        jmuxerRef r.1 = None /\ live r.1 = [] /\ Destroyed j ∈ r.2)
  /\ (forall env f s,
        jmuxerRef s = None ->
        same_frame (Some f) (currentFrame (lastProps s)) = false ->
        jmuxerThrows env = true ->
        let r := update env {| isSharing := true; currentFrame := Some f |} s in
        r.2 = [ConsoleError "jmuxer初期化エラー:"]
        /\ jmuxerRef r.1 = None
        /\ live r.1 = live s
        /\ currentFrame (lastProps r.1) = Some f).
Proof.
  split; [| split; [exact creation_needs_frame |]].
  { intros env [] r; subst r; repeat split. }
  split; [exact first_frame_creates |].
  split.
  { intros s Hreach.
    destruct (reachable_decoder_invariant s Hreach) as [Hlive _].
    split; [exact Hlive |]. rewrite Hlive. unfold owned.
    destruct (jmuxerRef s); cbn; lia. }
  split; [exact frames_fed_in_order |].
  split; [exact stop_destroys | exact creation_failure_logged].
Qed.

Lemma decoding_reachable : reachable decoding.
Proof. unfold decoding, waiting. do 2 apply reachable_update. apply reachable_mount. Qed.

Lemma decoder_lifecycle_witness :
  jmuxerRef decoding = Some 0%nat
  /\ feeds (run (sharing_frames [(envOk, au 2 "AU2"); (envOk, au 3 "AU3")])
              decoding).2
     = [(0%nat, text_bytes "AU2"); (0%nat, text_bytes "AU3")]
  /\ live (update envOk {| isSharing := false; currentFrame := None |}
             decoding).1 = []
  /\ jmuxerRef (update envBroken
                  {| isSharing := true; currentFrame := Some (au 1 "AU1") |}
                  waiting).1 = None.
Proof.
  pose proof decoder_lifecycle
    as (_ & _ & Hfirst & _ & Hfed & Hstop & Hfail).
  split; [| split; [| split]].
  - apply (Hfirst envOk (au 1 "AU1") waiting); reflexivity.
  - apply (Hfed [(envOk, au 2 "AU2"); (envOk, au 3 "AU3")] decoding 0%nat);
      reflexivity.
  - apply (Hstop envOk None decoding 0%nat decoding_reachable). reflexivity.
  - apply (Hfail envBroken (au 1 "AU1") waiting); reflexivity.
Defined.

End H264Spec.

(** * Further properties of the application component *)

Module AppExtra.
Import App Spec Extra.

(** ** Decoding of audio payloads *)

Lemma int16_of_bytes_range lo hi :
  -32768 <= JS.int16_of_bytes lo hi <= 32767.
Proof.
  unfold JS.int16_of_bytes.
  pose proof (Byte.to_N_bounded lo). pose proof (Byte.to_N_bounded hi).
  cbv zeta. case_match.
  - apply Z.ltb_lt in H1. lia.
  - apply Z.ltb_ge in H1. lia.
Qed.

(** The view over the bytes exists exactly for an even byte length, and
    holds one element per pair of bytes. *)
Lemma Int16Array_spec bytes :
  (Nat.Even (length bytes) ->
   exists int16, JS.Int16Array bytes = Some int16
                 /\ length bytes = (2 * length int16)%nat
                 /\ Forall (fun x => -32768 <= x <= 32767) int16)
  /\ (Nat.Odd (length bytes) -> JS.Int16Array bytes = None).
Proof.
  assert (Hboth : forall bytes,
             ((Nat.Even (length bytes) ->
               exists int16, JS.Int16Array bytes = Some int16
                             /\ length bytes = (2 * length int16)%nat
                             /\ Forall (fun x => -32768 <= x <= 32767) int16)
              /\ (Nat.Odd (length bytes) -> JS.Int16Array bytes = None))
             /\ forall b,
                 ((Nat.Even (length (b :: bytes)) ->
                   exists int16, JS.Int16Array (b :: bytes) = Some int16
                                 /\ length (b :: bytes) = (2 * length int16)%nat
                                 /\ Forall (fun x => -32768 <= x <= 32767) int16)
                  /\ (Nat.Odd (length (b :: bytes)) ->
                      JS.Int16Array (b :: bytes) = None))).
  { clear bytes. induction bytes as [| c bytes [IH0 IH1]].
    - split; [split |].
      + intros _. exists []. repeat split. constructor.
      + intros [k Hk]. cbn in Hk. lia.
      + intros b. split.
        * intros [k Hk]. cbn in Hk. lia.
        * intros _. reflexivity.
    - split; [apply IH1 |]. intros b. destruct IH0 as [Heven Hodd]. split.
      + intros Hev. destruct Heven as (int16 & Hview & Hlen & Hrange).
        { destruct Hev as [k Hk]. cbn in Hk. exists (k - 1)%nat. lia. }
        exists (JS.int16_of_bytes b c :: int16). cbn [JS.Int16Array].
        rewrite Hview. repeat split.
        * cbn [length]. lia.
        * constructor; [apply int16_of_bytes_range | exact Hrange].
      + intros Hod. cbn [JS.Int16Array]. rewrite Hodd; [reflexivity |].
        destruct Hod as [k Hk]. cbn in Hk. exists (k - 1)%nat. lia. }
  apply Hboth.
Qed.

Lemma normalised_range (x : Z) :
  -32768 <= x <= 32767 -> (-1 <= inject_Z x / 32768 < 1)%Q.
Proof.
  intros Hx. unfold Qle, Qlt, Qdiv, Qmult, Qinv, inject_Z. cbn. lia.
Qed.

Lemma float32_of_range bytes :
  Forall (fun q => (-1 <= q < 1)%Q) (float32_of bytes).
Proof.
  unfold float32_of.
  destruct (Nat.Even_or_Odd (length bytes)) as [Hev | Hod].
  - destruct (proj1 (Int16Array_spec bytes) Hev) as (int16 & -> & _ & Hrange).
    apply Forall_map. eapply Forall_impl; [exact Hrange |].
    intros x Hx. apply normalised_range, Hx.
  - rewrite (proj2 (Int16Array_spec bytes) Hod). constructor.
Qed.

(** What [prepareBuffer] returns in terms of the sample stream. *)
Lemma prepareBuffer_ready env d buf :
  prepareBuffer env d = Ready buf ->
  exists bytes,
    atob env (data d) = Some bytes
    /\ Nat.Even (length bytes)
    /\ createBufferThrows env = false
    /\ let c := JS.or_default (channels d) 2 in
       let n := Z.of_nat (length (float32_of bytes)) / c in
       0 < n
       /\ buf = {| numberOfChannels := c;
                   bufferLength := n;
                   bufferSampleRate := JS.or_default (sampleRate d) 44100;
                   channelData :=
                     map (fun ch =>
                            map (fun i =>
                                   nth (i * Z.to_nat c + ch)%nat
                                       (float32_of bytes) 0%Q)
                                (seq 0 (Z.to_nat n)))
                         (seq 0 (Z.to_nat c)) |}.
Proof.
  unfold prepareBuffer, float32_of. intros Hbuf.
  destruct (atob env (data d)) as [bytes |]; [| discriminate].
  exists bytes. split; [reflexivity |].
  destruct (Nat.Even_or_Odd (length bytes)) as [Hev | Hod].
  - split; [exact Hev |].
    destruct (JS.Int16Array bytes) as [int16 |]; [| discriminate].
    destruct (_ <=? 0) eqn:Hn; [discriminate |].
    destruct (createBufferThrows env); [discriminate |].
    split; [reflexivity |]. apply Z.leb_gt in Hn.
    split; [exact Hn |]. inversion Hbuf. reflexivity.
  - rewrite (proj2 (Int16Array_spec bytes) Hod) in Hbuf. discriminate.
Qed.

(** X1. Every sample of every channel of a prepared buffer lies in
    [-1, 1): the 16-bit samples are divided by 32768. *)
Theorem prepared_samples_normalised env d buf :
  prepareBuffer env d = Ready buf ->
  Forall (Forall (fun q => (-1 <= q < 1)%Q)) (channelData buf).
Proof.
  intros Hbuf.
  destruct (prepareBuffer_ready env d buf Hbuf)
    as (bytes & _ & _ & _ & _ & ->).
  cbn [channelData]. apply Forall_map, Forall_forall. intros ch _.
  apply Forall_map, Forall_forall. intros i _.
  pose proof (float32_of_range bytes) as Hrange.
  destruct (nth_in_or_default (i * Z.to_nat (JS.or_default (channels d) 2) + ch)
              (float32_of bytes) 0%Q) as [Hin | ->].
  - rewrite Forall_forall in Hrange. apply Hrange, list_elem_of_In, Hin.
  - lra.
Qed.

Lemma prepared_samples_normalised_witness :
  Forall (Forall (fun q => (-1 <= q < 1)%Q)) (channelData silence).
Proof.
  apply (prepared_samples_normalised (envAt 0 0) chunk20ms silence).
  apply AppSpec.prepare_chunk20ms.
Defined.

(** A block of consecutive samples read one index at a time. *)
Lemma nth_block (f : list Q) (a c : nat) :
  (a + c <= length f)%nat ->
  map (fun k => nth (a + k) f 0%Q) (seq 0 c) = take c (drop a f).
Proof.
  revert a. induction c as [| c IH]; intros a Hlen; [reflexivity |].
  rewrite seq_S, map_app, IH by lia. cbn [map Nat.add].
  assert (Hsome : is_Some (f !! (a + c)%nat)) by (apply lookup_lt_is_Some; lia).
  destruct Hsome as [x Hx].
  rewrite (nth_lookup_Some _ _ _ _ Hx).
  rewrite (take_S_r _ _ x); [reflexivity |].
  rewrite lookup_drop. exact Hx.
Qed.

Lemma nth_map_seq {A : Type} (g : nat -> A) (n k : nat) (d : A) :
  (k < n)%nat -> nth k (map g (seq 0 n)) d = g k.
Proof.
  intros Hk.
  rewrite (nth_indep _ d (g 0%nat)) by (rewrite length_map, length_seq; lia).
  rewrite map_nth, seq_nth by lia. reflexivity.
Qed.

(** Taking the frames apart and putting them together again gives the
    samples back, up to the last whole frame. *)
Lemma interleave_deinterleave (f : list Q) (n c : nat) :
  (n * c <= length f)%nat ->
  interleave
    (map (fun ch => map (fun i => nth (i * c + ch) f 0%Q) (seq 0 n)) (seq 0 c))
    n c
  = take (n * c) f.
Proof.
  intros Hlen. unfold interleave.
  transitivity
    (flat_map (fun i => map (fun ch => nth (i * c + ch) f 0%Q) (seq 0 c))
       (seq 0 n)).
  { rewrite !flat_map_concat_map. f_equal.
    apply map_ext_in. intros i Hi. apply in_seq in Hi.
    apply map_ext_in. intros ch Hch. apply in_seq in Hch.
    rewrite (nth_map_seq _ c ch) by lia.
    rewrite (nth_map_seq (fun i0 => nth (i0 * c + ch) f 0%Q) n i) by lia.
    reflexivity. }
  induction n as [| n IH]; [reflexivity |].
  rewrite seq_S, flat_map_app, IH by nia. cbn [flat_map Nat.add].
  rewrite app_nil_r, nth_block by nia.
  rewrite take_take_drop. f_equal. lia.
Qed.

Lemma float32_of_length bytes :
  Nat.Even (length bytes) ->
  length (float32_of bytes) = (length bytes / 2)%nat.
Proof.
  intros Hev. unfold float32_of.
  destruct (proj1 (Int16Array_spec bytes) Hev) as (int16 & -> & Hlen & _).
  rewrite length_map, Hlen, Nat.mul_comm, Nat.div_mul by lia. reflexivity.
Qed.

(** X2. A prepared buffer has the channel count of the chunk (2 when the
    chunk gives none), which is positive; it holds as many frames as fit
    into the samples, at least one; every channel holds one sample per
    frame; and interleaving the channels again gives the sample stream
    back up to the last whole frame: the samples of an incomplete last
    frame are dropped, nothing else is lost or reordered. *)
Theorem prepared_buffer_deinterleaved env d buf bytes :
  prepareBuffer env d = Ready buf ->
  atob env (data d) = Some bytes ->
  let c := Z.to_nat (numberOfChannels buf) in
  let n := Z.to_nat (bufferLength buf) in
  numberOfChannels buf = JS.or_default (channels d) 2
  /\ (0 < c)%nat
  /\ (0 < n)%nat
  /\ n = (length bytes / 2 / c)%nat
  /\ length (channelData buf) = c
  /\ Forall (fun col => length col = n) (channelData buf)
  /\ interleave (channelData buf) n c = take (n * c) (float32_of bytes).
Proof.
  intros Hbuf Hbytes.
  destruct (prepareBuffer_ready env d buf Hbuf)
    as (bytes' & Hbytes' & Hev & _ & Hn & ->).
  assert (bytes' = bytes) by congruence. subst bytes'. clear Hbytes'.
  cbn [numberOfChannels bufferLength channelData]. cbv zeta.
  set (c := JS.or_default (channels d) 2) in *.
  rewrite (float32_of_length bytes Hev) in *.
  set (len := (length bytes / 2)%nat) in *.
  assert (Hc : 0 < c).
  { destruct (Z.lt_trichotomy c 0) as [Hneg | [Hzero | Hpos]]; [| | exact Hpos].
    - pose proof (Z.div_mod (Z.of_nat len) c ltac:(lia)).
      pose proof (Z.mod_neg_bound (Z.of_nat len) c Hneg). nia.
    - rewrite Hzero, Z.div_0_r in Hn. lia. }
  assert (Hdiv : Z.to_nat (Z.of_nat len / c) = (len / Z.to_nat c)%nat).
  { rewrite <- (Z2Nat.id c) at 1 by lia. rewrite <- Nat2Z.inj_div, Nat2Z.id.
    reflexivity. }
  repeat split.
  - lia.
  - lia.
  - exact Hdiv.
  - rewrite length_map, length_seq. reflexivity.
  - apply Forall_map, Forall_forall. intros ch _.
    rewrite length_map, length_seq. reflexivity.
  - apply interleave_deinterleave.
    rewrite (float32_of_length bytes Hev). fold len. rewrite Hdiv.
    rewrite Nat.mul_comm. apply Nat.Div0.mul_div_le.
Qed.

Lemma prepared_buffer_deinterleaved_witness :
  exists buf,
    prepareBuffer (envBytes six_bytes 0) stereo = Ready buf
    /\ bufferLength buf = 1
    /\ interleave (channelData buf) 1 2 = take 2 (float32_of six_bytes).
Proof.
  eexists. split; [vm_compute; reflexivity |]. split; [reflexivity |].
  exact (proj2 (proj2 (proj2 (proj2 (proj2 (proj2
    (prepared_buffer_deinterleaved (envBytes six_bytes 0) stereo _ six_bytes
       eq_refl eq_refl))))))).
Defined.

(** ** Handling of audio events *)

(** X3. An audio event either starts exactly one source, or leaves the
    whole state as it was, playback clock included, and at most reports an
    exception: a chunk that is refused or fails to decode has no partial
    effect. *)
Theorem audio_event_all_or_nothing env d s :
  let r := handle env (AudioChunk d) s in
  (exists ctx buf start, r.2 = [SourceStart ctx buf start])
  \/ (r.1 = s /\ (r.2 = [] \/ r.2 = [ConsoleError "音声再生エラー:"])).
Proof.
  cbn [handle]. cbv zeta.
  destruct (AppSpec.on_audio_cases env d s) as [E | E]; rewrite E.
  { right. split; [reflexivity | left; reflexivity]. }
  unfold playAudioChunk.
  destruct (audioContextRef (audio s)) as [ctx |];
    [| right; split; [reflexivity | left; reflexivity]].
  destruct (bool_decide _); cbn [negb];
    [| right; split; [reflexivity | left; reflexivity]].
  destruct (prepareBuffer env d) as [| | buf].
  - right. split; [reflexivity | right; reflexivity].
  - right. split; [reflexivity | left; reflexivity].
  - left. eexists _, _, _. reflexivity.
Qed.

(** X4. For a listener whose context runs: a payload that [atob] rejects
    or whose byte length is odd is reported on the console and dropped; a
    payload with fewer samples than channels, the empty payload included,
    is dropped silently. The state does not change in either case. *)
Theorem malformed_chunk_dropped env d s ctx :
  isAudioEnabledRef (audio s) = true ->
  playAudioChunkRef (audio s) = true ->
  currentSharerIdRef (audio s) <> clientIdRef (audio s) ->
  audioContextRef (audio s) = Some ctx ->
  state_of s ctx = Some running ->
  (atob env (data d) = None ->
   handle env (AudioChunk d) s = (s, [ConsoleError "音声再生エラー:"]))
  /\ (forall bytes,
        atob env (data d) = Some bytes ->
        Nat.Odd (length bytes) ->
        handle env (AudioChunk d) s = (s, [ConsoleError "音声再生エラー:"]))
  /\ (forall bytes,
        atob env (data d) = Some bytes ->
        Nat.Even (length bytes) ->
        Z.of_nat (length bytes / 2) < JS.or_default (channels d) 2 ->
        handle env (AudioChunk d) s = (s, [])).
Proof.
  intros Hen Hfn Hne Hctx Hrun. cbn [handle].
  rewrite (AppSpec.on_audio_foreign env d s Hen Hfn Hne).
  unfold playAudioChunk. rewrite Hctx, bool_decide_eq_true_2 by exact Hrun.
  cbn [negb]. unfold prepareBuffer. split; [| split].
  - intros ->. reflexivity.
  - intros bytes -> Hod. rewrite (proj2 (Int16Array_spec bytes) Hod).
    reflexivity.
  - intros bytes -> Hev Hfew.
    destruct (proj1 (Int16Array_spec bytes) Hev) as (int16 & -> & Hlen & _).
    rewrite length_map.
    replace (length bytes / 2)%nat with (length int16) in Hfew
      by (rewrite Hlen, Nat.mul_comm, Nat.div_mul; lia).
    rewrite Z.div_small by lia. reflexivity.
Qed.

Lemma malformed_chunk_dropped_witness :
  handle (envBytes five_bytes 1) (AudioChunk stereo) listening
  = (listening, [ConsoleError "音声再生エラー:"])
  /\ handle (envBytes [] 1) (AudioChunk stereo) listening = (listening, []).
Proof.
  split.
  - apply (proj1 (proj2 (malformed_chunk_dropped (envBytes five_bytes 1) stereo
                           listening 0%nat eq_refl eq_refl ltac:(discriminate)
                           eq_refl eq_refl)) five_bytes eq_refl).
    exists 2%nat. reflexivity.
  - apply (proj2 (proj2 (malformed_chunk_dropped (envBytes [] 1) stereo
                           listening 0%nat eq_refl eq_refl ltac:(discriminate)
                           eq_refl eq_refl)) [] eq_refl).
    + exists 0%nat. reflexivity.
    + reflexivity.
Defined.

(** Only an audio event starts a source, and only past every gate. *)
Lemma source_started_gates env ev s c buf start :
  SourceStart c buf start ∈ (handle env ev s).2 ->
  exists d,
    ev = AudioChunk d
    /\ isAudioEnabledRef (audio s) = true
    /\ currentSharerIdRef (audio s) <> clientIdRef (audio s)
    /\ audioContextRef (audio s) = Some c
    /\ state_of s c = Some running
    /\ prepareBuffer env d = Ready buf.
Proof.
  intros Hin.
  AppSpec.event_cases ev; cbn [handle snd] in Hin;
    try (apply not_elem_of_nil in Hin; contradiction).
  - exists d.
    destruct (AppSpec.audio_event_scheduled env d s _ _ c buf start
                (surjective_pairing _) Hin) as (_ & Hbuf & Hrun & Hctx & _ & _).
    cbn [handle] in Hin. unfold on_audio in Hin.
    destruct (isAudioEnabledRef (audio s)); cbn [negb] in Hin;
      [| apply not_elem_of_nil in Hin; contradiction].
    unfold JS.strict_eq in Hin.
    destruct (bool_decide_reflect
                (currentSharerIdRef (audio s) = clientIdRef (audio s)))
      as [Heq | Hne]; [apply not_elem_of_nil in Hin; contradiction |].
    repeat split; assumption.
  - exfalso. unfold unlockAudio in Hin.
    repeat case_match; apply list_elem_of_In in Hin; cbn in Hin;
      intuition discriminate.
  - exfalso. unfold toggleAudio in Hin.
    repeat case_match; apply list_elem_of_In in Hin; cbn in Hin;
      intuition discriminate.
  - exfalso. unfold on_resume_settled in Hin.
    repeat case_match; apply list_elem_of_In in Hin; cbn in Hin;
      intuition discriminate.
Qed.

(** The sources started by a run, event by event. *)
Lemma started_app out1 out2 : started (out1 ++ out2) = started out1 ++ started out2.
Proof. apply omap_app. Qed.

Lemma started_elem ctx buf start out :
  (ctx, buf, start) ∈ started out <-> SourceStart ctx buf start ∈ out.
Proof.
  unfold started. rewrite list_elem_of_omap. split.
  - intros (e & Hin & He). destruct e; try discriminate.
    inversion He; subst. exact Hin.
  - intros Hin. exists (SourceStart ctx buf start). split; [exact Hin | reflexivity].
Qed.

(** X5. In every run, from any state, each source that is started goes
    back to one audio event of the run that arrived while audio was
    enabled, the sharer was somebody else and the context in the ref was
    running; no other event and no audio event outside these conditions
    starts a source. *)
Theorem playback_only_through_gates evs : forall s c buf start,
  SourceStart c buf start ∈ (run evs s).2 ->
  exists pre env d post,
    evs = pre ++ (env, AudioChunk d) :: post
    /\ let s1 := (run pre s).1 in
       isAudioEnabledRef (audio s1) = true
       /\ currentSharerIdRef (audio s1) <> clientIdRef (audio s1)
       /\ audioContextRef (audio s1) = Some c
       /\ state_of s1 c = Some running
       /\ prepareBuffer env d = Ready buf.
Proof.
  induction evs as [| [env ev] evs IH]; intros s c buf start Hin.
  - cbn in Hin. apply not_elem_of_nil in Hin. contradiction.
  - rewrite AppSpec.run_cons in Hin. cbn [snd] in Hin.
    apply elem_of_app in Hin as [Hin | Hin].
    + destruct (source_started_gates env ev s c buf start Hin)
        as (d & -> & Hgates).
      exists [], env, d, evs. split; [reflexivity | exact Hgates].
    + destruct (IH _ c buf start Hin) as (pre & env' & d & post & -> & Hgates).
      exists ((env, ev) :: pre), env', d, post. split; [reflexivity |].
      cbv zeta. rewrite AppSpec.run_cons. cbn [fst]. exact Hgates.
Qed.

Lemma playback_only_through_gates_witness :
  exists pre env d post,
    [(envAt 1 0, ClientCountUpdated 3); (envAt 1 0, AudioChunk chunk20ms)]
    = pre ++ (env, AudioChunk d) :: post
    /\ isAudioEnabledRef (audio (run pre listening).1) = true.
Proof.
  destruct (playback_only_through_gates
              [(envAt 1 0, ClientCountUpdated 3); (envAt 1 0, AudioChunk chunk20ms)]
              listening 0%nat silence (1 + 0.05)%Q)
    as (pre & env & d & post & Hsplit & Hen & _).
  - vm_compute. apply list_elem_of_here.
  - exists pre, env, d, post. split; assumption.
Defined.



(** ** Lifecycle of the audio pipeline *)

(** Whenever a step puts another context into the ref, the context was
    constructed in that step and the playback clock is reset. *)
Lemma new_context_resets_clock env ev s c :
  audioContextRef (audio (handle env ev s).1) = Some c ->
  audioContextRef (audio s) <> Some c ->
  audioContextRef (audio s) = None
  /\ c = length (contexts s)
  /\ nextPlayTimeRef (audio (handle env ev s).1) = 0%Q
  /\ audioInitializedRef (audio (handle env ev s).1) = false.
Proof.
  intros Hnew Hold.
  AppSpec.event_cases ev; cbn [handle fst] in *;
    try (exfalso; apply Hold; exact Hnew).
  all: try (unfold on_connected, on_frame, on_sharing_started,
              on_sharing_stopped, on_resume_settled in *;
            repeat case_match; simplify_eq; cbn in *;
            exfalso; apply Hold; exact Hnew).
  - exfalso. apply Hold.
    destruct (AppSpec.on_audio_cases env d s) as [E | E]; rewrite E in Hnew;
      [exact Hnew |].
    destruct (AppSpec.playAudioChunk_cases env d s)
      as [(what & [E' | E']) | (ctx' & buf & _ & _ & _ & E')];
      rewrite E' in Hnew; exact Hnew.
  - revert Hnew. unfold unlockAudio, ensureContext.
    destruct (audioContextRef (audio s)) as [c0 |] eqn:Href.
    + repeat case_match; cbn; intros; simplify_eq; congruence.
    + destruct (newAudioContext env) as [st |]; [| cbn; congruence].
      cbv zeta. repeat case_match; cbn; intros; simplify_eq;
        repeat split; reflexivity.
  - revert Hnew. unfold toggleAudio, ensureContext.
    destruct (isConnected (session s)); cbn [negb];
      [| intros Hnew; exfalso; apply Hold; exact Hnew].
    destruct (isAudioEnabled (audio s)); [cbn; congruence |].
    cbn [set_isAudioEnabledRef setIsAudioEnabled with_audio audio
         audioContextRef].
    destruct (audioContextRef (audio s)) as [c0 |] eqn:Href.
    + cbn; intros; simplify_eq; congruence.
    + destruct (newAudioContext env) as [st |]; [| cbn; congruence].
      cbn; intros; simplify_eq; repeat split; reflexivity.
Qed.

(** X7. A stale playback clock never reaches a new pipeline: when a step
    leaves a context in the ref that was not there before, that context
    was constructed in this step, the clock is zero and not initialized,
    and so the first chunk started on it begins 50ms after its arrival,
    whatever the clock was for earlier contexts. *)
Theorem fresh_context_fresh_clock env ev s c :
  audioContextRef (audio (handle env ev s).1) = Some c ->
  audioContextRef (audio s) <> Some c ->
  let s1 := (handle env ev s).1 in
  c = length (contexts s)
  /\ nextPlayTimeRef (audio s1) = 0%Q
  /\ audioInitializedRef (audio s1) = false
  /\ forall env' d' c' buf start,
       SourceStart c' buf start ∈ (handle env' (AudioChunk d') s1).2 ->
       start = (ctxCurrentTime env' + 0.05)%Q.
Proof.
  intros Hnew Hold.
  destruct (new_context_resets_clock env ev s c Hnew Hold)
    as (_ & Hc & Hclock & Hinit).
  repeat split; try assumption.
  intros env' d' c' buf start Hin.
  destruct (AppSpec.audio_event_scheduled _ _ _ _ _ _ _ _
              (surjective_pairing _) Hin) as (-> & _).
  unfold spec_startTime. rewrite Hinit. reflexivity.
Qed.

Lemma fresh_context_fresh_clock_witness :
  nextPlayTimeRef
    (audio (handle (envAt 9 0) ToggleAudio
              (handle (envAt 8 0) ToggleAudio watching).1).1) = 0%Q.
Proof.
  apply (fresh_context_fresh_clock (envAt 9 0) ToggleAudio
           (handle (envAt 8 0) ToggleAudio watching).1 1%nat).
  - reflexivity.
  - discriminate.
Defined.

(** The mirror of the enabled flag follows the flag. *)
Lemma handle_enabled_mirror env ev s :
  isAudioEnabledRef (audio s) = isAudioEnabled (audio s) ->
  isAudioEnabledRef (audio (handle env ev s).1)
  = isAudioEnabled (audio (handle env ev s).1).
Proof.
  intros Hm.
  AppSpec.event_cases ev; cbn [handle fst]; try exact Hm.
  all: try (unfold on_connected, on_frame, on_sharing_started,
              on_sharing_stopped, unlockAudio, toggleAudio, ensureContext,
              on_resume_settled;
            repeat case_match; simplify_eq; cbn; first [exact Hm | reflexivity];
            fail).
  destruct (AppSpec.on_audio_cases env d s) as [E | E]; rewrite E; [exact Hm |].
  destruct (AppSpec.playAudioChunk_cases env d s)
    as [(what & [E' | E']) | (ctx' & buf & _ & _ & _ & E')];
    rewrite E'; exact Hm.
Qed.

(** Only [toggleAudio] writes the mirror of the enabled flag. *)
Lemma handle_keeps_enabled_ref env ev s :
  is_toggle ev = false ->
  isAudioEnabledRef (audio (handle env ev s).1) = isAudioEnabledRef (audio s).
Proof.
  intros Hev.
  AppSpec.event_cases ev; try discriminate; cbn [handle fst]; try reflexivity.
  all: try (unfold on_connected, on_frame, on_sharing_started,
              on_sharing_stopped, unlockAudio, ensureContext,
              on_resume_settled;
            repeat case_match; simplify_eq; reflexivity).
  destruct (AppSpec.on_audio_cases env d s) as [E | E]; rewrite E; [reflexivity |].
  destruct (AppSpec.playAudioChunk_cases env d s)
    as [(what & [E' | E']) | (ctx' & buf & _ & _ & _ & E')];
    rewrite E'; reflexivity.
Qed.

Lemma run_no_toggle_silent evs : forall s,
  forallb (fun e => negb (is_toggle e.2)) evs = true ->
  isAudioEnabledRef (audio s) = false ->
  started (run evs s).2 = []
  /\ isAudioEnabledRef (audio (run evs s).1) = false.
Proof.
  induction evs as [| [env ev] evs IH]; intros s Hevs Hoff.
  - split; [reflexivity | exact Hoff].
  - cbn [forallb snd] in Hevs. apply andb_true_iff in Hevs as [Hev Hevs].
    apply negb_true_iff in Hev.
    rewrite AppSpec.run_cons. cbn [fst snd]. rewrite started_app.
    assert (Hnone : started (handle env ev s).2 = []).
    { destruct (started (handle env ev s).2) as [| [[c buf] start] rest] eqn:E;
        [reflexivity |].
      assert (Hin : (c, buf, start) ∈ started (handle env ev s).2)
        by (rewrite E; apply list_elem_of_here).
      apply started_elem in Hin.
      destruct (source_started_gates env ev s c buf start Hin)
        as (d & _ & Hen & _). congruence. }
    rewrite Hnone. cbn [app].
    apply IH; [exact Hevs |].
    rewrite (handle_keeps_enabled_ref env ev s Hev). exact Hoff.
Qed.

(** X8. Switching audio off while connected empties the ref, asks the
    platform to close the context that was there, resets the playback
    clock, and from then on no source is started by any sequence of events
    that does not switch audio on again: not by audio chunks, and not
    after an unlock gesture that builds a new running context. *)
Theorem audio_off_until_toggled env s :
  isConnected (session s) = true ->
  isAudioEnabled (audio s) = true ->
  let r := handle env ToggleAudio s in
  audioContextRef (audio r.1) = None
  /\ nextPlayTimeRef (audio r.1) = 0%Q
  /\ audioInitializedRef (audio r.1) = false
  /\ (forall ctx, audioContextRef (audio s) = Some ctx -> Close ctx ∈ r.2)
  /\ forall evs,
       forallb (fun e => negb (is_toggle e.2)) evs = true ->
       started (run evs r.1).2 = [].
Proof.
  intros Hconn Hon. cbn [handle]. unfold toggleAudio. rewrite Hconn, Hon.
  cbn [negb fst snd]. repeat split.
  - intros ctx Hctx. cbn. rewrite Hctx.
    apply elem_of_app. right. apply list_elem_of_here.
  - intros evs Hevs. apply run_no_toggle_silent; [exact Hevs | reflexivity].
Qed.

Lemma audio_off_until_toggled_witness :
  started
    (run [(envAt 9 0, UnlockAudio); (envAt 9 0, AudioChunk chunk20ms)]
       (handle (envAt 8 0) ToggleAudio watching).1).2 = [].
Proof.
  apply (proj2 (proj2 (proj2 (proj2
           (audio_off_until_toggled (envAt 8 0) watching eq_refl eq_refl))))).
  reflexivity.
Defined.

(** X9. In every state the client reaches, the flag the audio handler
    consults ([isAudioEnabledRef]) equals the flag the audio button shows
    ([isAudioEnabled]), and the identities the handler compares equal the
    ones the controls are rendered from. *)
Theorem audio_refs_mirror_state t evs :
  let s := (run evs (init t)).1 in
  isAudioEnabledRef (audio s) = isAudioEnabled (audio s)
  /\ currentSharerIdRef (audio s) = currentSharerId (session s)
  /\ clientIdRef (audio s) = clientId (session s).
Proof.
  cbv zeta. split.
  - generalize (init t) (eq_refl : isAudioEnabledRef (audio (init t))
                                   = isAudioEnabled (audio (init t))).
    induction evs as [| [env ev] evs IH]; intros s Hs; [exact Hs |].
    rewrite AppSpec.run_cons. cbn [fst]. apply IH, handle_enabled_mirror, Hs.
  - apply (AppSpec.run_refs_in_sync evs (init t)), AppSpec.init_refs_in_sync.
Qed.

(** ** Session state *)

(** What one event can do to the displayed frame: keep it, clear it, or
    replace it by the data URL of the frame it carries. *)
Lemma handle_frame_cases env ev s :
  currentFrame (session (handle env ev s).1) = currentFrame (session s)
  \/ currentFrame (session (handle env ev s).1) = None
  \/ exists d,
       ev = Frame d
       /\ currentFrame (session (handle env ev s).1)
          = Some ("data:image/jpeg;base64," +:+ image d).
Proof.
  AppSpec.event_cases ev; cbn [handle fst];
    try (left; reflexivity); try (right; left; reflexivity).
  all: try (left;
            unfold on_connected, unlockAudio, toggleAudio, ensureContext,
              on_resume_settled;
            repeat case_match; simplify_eq; reflexivity).
  - right. right. exists fd. split; [reflexivity |].
    unfold on_frame. case_match; reflexivity.
  - left. destruct (AppSpec.on_audio_cases env d s) as [E | E]; rewrite E;
      [reflexivity |].
    destruct (AppSpec.playAudioChunk_cases env d s)
      as [(what & [E' | E']) | (ctx' & buf & _ & _ & _ & E')];
      rewrite E'; reflexivity.
Qed.

Lemma run_frame_cases evs : forall s,
  currentFrame (session (run evs s).1) = currentFrame (session s)
  \/ currentFrame (session (run evs s).1) = None
  \/ exists url,
       url ∈ frame_urls evs
       /\ currentFrame (session (run evs s).1) = Some url.
Proof.
  induction evs as [| [env ev] evs IH]; intros s; [left; reflexivity |].
  rewrite AppSpec.run_cons. cbn [fst].
  assert (Hlater : forall url, url ∈ frame_urls evs ->
                               url ∈ frame_urls ((env, ev) :: evs)).
  { intros url Hin. unfold frame_urls. cbn [omap list_omap snd].
    fold (frame_urls evs). destruct ev; try exact Hin.
    apply list_elem_of_further, Hin. }
  destruct (IH (handle env ev s).1) as [Hsame | [Hnone | (url & Hin & Hurl)]].
  - rewrite Hsame.
    destruct (handle_frame_cases env ev s) as [H | [H | (d & -> & H)]].
    + left. exact H.
    + right. left. exact H.
    + right. right. eexists. split; [| exact H].
      apply list_elem_of_here.
  - right. left. exact Hnone.
  - right. right. exists url. split; [apply Hlater, Hin | exact Hurl].
Qed.

(** X10. After a sharing-started event the displayed frame is empty, and
    whatever events follow, the displayed frame is either empty or the
    data URL of a frame event that arrived after the sharing-started
    event: no frame received before it is ever shown again. *)
Theorem no_stale_frame_after_sharing_started env sharer target s evs :
  let s' := (run evs (handle env (SharingStarted sharer target) s).1).1 in
  currentFrame (session (handle env (SharingStarted sharer target) s).1) = None
  /\ (currentFrame (session s') = None
      \/ exists url,
           url ∈ frame_urls evs /\ currentFrame (session s') = Some url).
Proof.
  cbv zeta. split; [reflexivity |].
  destruct (run_frame_cases evs (handle env (SharingStarted sharer target) s).1)
    as [Hsame | [Hnone | Hurl]].
  - left. rewrite Hsame. reflexivity.
  - left. exact Hnone.
  - right. exact Hurl.
Qed.

(** Identity, host flag and audio capability are written by the
    [connected] handler only. *)
Lemma handle_keeps_identity env ev s :
  is_connected ev = false ->
  clientId (session (handle env ev s).1) = clientId (session s)
  /\ isHost (session (handle env ev s).1) = isHost (session s)
  /\ audioAvailable (session (handle env ev s).1) = audioAvailable (session s).
Proof.
  intros Hev.
  AppSpec.event_cases ev; try discriminate; cbn [handle fst];
    try (repeat split; reflexivity).
  all: try (unfold on_frame, unlockAudio, toggleAudio, ensureContext,
              on_resume_settled;
            repeat case_match; simplify_eq; repeat split; reflexivity).
  destruct (AppSpec.on_audio_cases env d s) as [E | E]; rewrite E;
    [repeat split; reflexivity |].
  destruct (AppSpec.playAudioChunk_cases env d s)
    as [(what & [E' | E']) | (ctx' & buf & _ & _ & _ & E')];
    rewrite E'; repeat split; reflexivity.
Qed.

(** X11. The local identity, the host flag and the audio capability flag
    are fixed by [connected]: a run without a [connected] event, however
    long and whatever else it contains (disconnects, sharing changes,
    takeovers), leaves all three as they were. *)
Theorem identity_fixed_by_connected evs : forall s,
  forallb (fun e => negb (is_connected e.2)) evs = true ->
  clientId (session (run evs s).1) = clientId (session s)
  /\ clientIdRef (audio (run evs s).1) = clientIdRef (audio s)
  /\ isHost (session (run evs s).1) = isHost (session s)
  /\ audioAvailable (session (run evs s).1) = audioAvailable (session s).
Proof.
  induction evs as [| [env ev] evs IH]; intros s Hevs;
    [repeat split; reflexivity |].
  cbn [forallb snd] in Hevs. apply andb_true_iff in Hevs as [Hev Hevs].
  apply negb_true_iff in Hev.
  rewrite AppSpec.run_cons. cbn [fst].
  destruct (IH (handle env ev s).1 Hevs) as (H1 & H2 & H3 & H4).
  destruct (handle_keeps_identity env ev s Hev) as (K1 & K3 & K4).
  rewrite H1, H2, H3, H4, K1, K3, K4. repeat split.
  clear -Hev.
  AppSpec.event_cases ev; try discriminate; cbn [handle fst]; try reflexivity.
  all: try (unfold on_frame, on_sharing_started, on_sharing_stopped,
              unlockAudio, toggleAudio, ensureContext, on_resume_settled;
            repeat case_match; simplify_eq; reflexivity).
  destruct (AppSpec.on_audio_cases env d s) as [E | E]; rewrite E; [reflexivity |].
  destruct (AppSpec.playAudioChunk_cases env d s)
    as [(what & [E' | E']) | (ctx' & buf & _ & _ & _ & E')];
    rewrite E'; reflexivity.
Qed.

Lemma identity_fixed_by_connected_witness :
  clientId (session (run reconnect_no_hello watching).1) = me.
Proof.
  apply (identity_fixed_by_connected reconnect_no_hello watching).
  reflexivity.
Defined.

(** ** Frame throughput *)

(** Rounding keeps an integer bound. *)
Lemma Math_round_between (q : Q) (lo hi : Z) :
  (inject_Z lo <= q <= inject_Z hi)%Q -> lo <= JS.Math_round q <= hi.
Proof.
  intros [Hlo Hhi]. unfold JS.Math_round.
  pose proof (Qfloor_le (q + (1 # 2))) as Hfl.
  pose proof (Qlt_floor (q + (1 # 2))) as Hlt.
  split.
  - assert (H : (inject_Z lo < inject_Z (Qfloor (q + (1 # 2)) + 1))%Q) by lra.
    rewrite <- Zlt_Qlt in H. lia.
  - assert (H : (inject_Z (Qfloor (q + (1 # 2))) < inject_Z (hi + 1))%Q).
    { rewrite inject_Z_plus. change (inject_Z 1) with 1%Q. lra. }
    rewrite <- Zlt_Qlt in H. lia.
Qed.

Lemma rate_between (n e : Z) :
  0 <= n -> 1000 <= e ->
  (inject_Z 0 <= inject_Z (n * 1000) / inject_Z e <= inject_Z n)%Q.
Proof.
  intros Hn He.
  assert (Hpos : (0 < inject_Z e)%Q).
  { change 0%Q with (inject_Z 0). rewrite <- Zlt_Qlt. lia. }
  split.
  - apply Qle_shift_div_l; [exact Hpos |].
    rewrite <- inject_Z_mult, <- Zle_Qle. lia.
  - apply Qle_shift_div_r; [exact Hpos |].
    rewrite <- inject_Z_mult, <- Zle_Qle. nia.
Qed.

(** The frame counter is never negative. *)
Lemma handle_counter_nonneg env ev s :
  0 <= count (fpsCounterRef (metrics s)) ->
  0 <= count (fpsCounterRef (metrics (handle env ev s).1)).
Proof.
  intros Hc.
  AppSpec.event_cases ev; cbn [handle fst]; try exact Hc.
  all: try (unfold on_connected, on_sharing_started, on_sharing_stopped,
              unlockAudio, toggleAudio, ensureContext, on_resume_settled;
            repeat case_match; simplify_eq; cbn; exact Hc).
  - unfold on_frame. case_match; cbn; lia.
  - destruct (AppSpec.on_audio_cases env d s) as [E | E]; rewrite E; [exact Hc |].
    destruct (AppSpec.playAudioChunk_cases env d s)
      as [(what & [E' | E']) | (ctx' & buf & _ & _ & _ & E')];
      rewrite E'; exact Hc.
Qed.

(** X12. In every state the client reaches the frame counter is not
    negative, and a rate published by the frame handler is never negative
    and never larger than the number of frame events counted in the window
    (the publishing one included), because a window is at least one second
    long. *)
Theorem published_fps_bounded t evs env d :
  let s := (run evs (init t)).1 in
  let c := fpsCounterRef (metrics s) in
  0 <= count c
  /\ (1000 <= dateNow env - lastTime c ->
      0 <= fps (metrics (handle env (Frame d) s).1) <= count c + 1).
Proof.
  cbv zeta.
  assert (Hc : 0 <= count (fpsCounterRef (metrics (run evs (init t)).1))).
  { generalize (init t) (Z.le_refl 0 : 0 <= count (fpsCounterRef (metrics (init t)))).
    induction evs as [| [env' ev] evs IH]; intros s Hs; [exact Hs |].
    rewrite AppSpec.run_cons. cbn [fst]. apply IH, handle_counter_nonneg, Hs. }
  split; [exact Hc |]. intros Hel.
  destruct (AppSpec.on_frame_counter env d (run evs (init t)).1) as [Hpub _].
  destruct (Hpub Hel) as [Hfps _]. cbn [handle fst]. rewrite Hfps.
  apply Math_round_between, rate_between; lia.
Qed.

Lemma published_fps_bounded_witness :
  0 <= fps (metrics (handle (envAt 0 1003) (Frame frameP1)
                       (run (frame_events early_frames) (init 0)).1).1) <= 3.
Proof.
  apply (proj2 (published_fps_bounded 0 (frame_events early_frames)
                  (envAt 0 1003) frameP1)).
  vm_compute. discriminate.
Defined.

(** ** Audio capture commands *)

(** X24. The client asks the server to start or stop audio capture only
    from the audio toggle, only while connected and only when the local
    participant is the current sharer: [stop_audio] when audio was on,
    [start_audio] when it was off. A viewer who toggles audio changes local
    playback only. *)
Theorem audio_commands_only_from_sharer env ev s c :
  Emit c ∈ (handle env ev s).2 ->
  ev = ToggleAudio
  /\ isConnected (session s) = true
  /\ currentSharerId (session s) = clientId (session s)
  /\ ((c = "stop_audio" /\ isAudioEnabled (audio s) = true)
      \/ (c = "start_audio" /\ isAudioEnabled (audio s) = false)).
Proof.
  intros Hin.
  AppSpec.event_cases ev; cbn [handle snd] in Hin;
    try (apply not_elem_of_nil in Hin; contradiction).
  - exfalso.
    destruct (AppSpec.on_audio_cases env d s) as [E | E]; rewrite E in Hin;
      [apply not_elem_of_nil in Hin; contradiction |].
    destruct (AppSpec.playAudioChunk_cases env d s)
      as [(what & [E' | E']) | (ctx' & buf & _ & _ & _ & E')];
      rewrite E' in Hin; apply list_elem_of_In in Hin; cbn in Hin;
      intuition discriminate.
  - exfalso. unfold unlockAudio in Hin.
    repeat case_match; apply list_elem_of_In in Hin; cbn in Hin;
      intuition discriminate.
  - split; [reflexivity |]. unfold toggleAudio, JS.strict_eq in Hin.
    destruct (isConnected (session s));
      [| cbn in Hin; apply not_elem_of_nil in Hin; contradiction].
    split; [reflexivity |].
    destruct (bool_decide_reflect
                (currentSharerId (session s) = clientId (session s)))
      as [Hmine | Hother].
    + split; [exact Hmine |].
      destruct (isAudioEnabled (audio s)); cbn [negb] in Hin.
      * left. split; [| reflexivity].
        repeat case_match; apply list_elem_of_In in Hin; cbn in Hin;
          intuition congruence.
      * right. split; [| reflexivity].
        repeat case_match; apply list_elem_of_In in Hin; cbn in Hin;
          intuition congruence.
    + exfalso. destruct (isAudioEnabled (audio s)); cbn [negb] in Hin;
        repeat case_match; apply list_elem_of_In in Hin; cbn in Hin;
        intuition discriminate.
  - exfalso. unfold on_resume_settled in Hin.
    repeat case_match; apply list_elem_of_In in Hin; cbn in Hin;
      intuition discriminate.
Qed.

Lemma audio_commands_only_from_sharer_witness :
  currentSharerId (session (run sharing_myself (init 0)).1)
  = clientId (session (run sharing_myself (init 0)).1).
Proof.
  apply (audio_commands_only_from_sharer (envAt 1 0) ToggleAudio
           (run sharing_myself (init 0)).1 "stop_audio").
  vm_compute. apply list_elem_of_here.
Defined.

End AppExtra.

(** * Properties of the controls *)

Module UIExtra.
Import AppUI.

(** ** Commands *)

(** Of the handlers of [App] only [toggleAudio] sends something, and only
    while connected. *)
Lemma app_emit_connected env ev a c :
  App.Emit c ∈ (App.handle env ev a).2 ->
  ev = App.ToggleAudio /\ App.isConnected (App.session a) = true.
Proof.
  intros Hin.
  AppSpec.event_cases ev; cbn [App.handle snd] in Hin;
    try (apply not_elem_of_nil in Hin; contradiction).
  - exfalso.
    destruct (AppSpec.on_audio_cases env d a) as [E | E]; rewrite E in Hin;
      [apply not_elem_of_nil in Hin; contradiction |].
    destruct (AppSpec.playAudioChunk_cases env d a)
      as [(what & [E' | E']) | (ctx' & buf & _ & _ & _ & E')];
      rewrite E' in Hin; apply list_elem_of_In in Hin; cbn in Hin;
      intuition discriminate.
  - exfalso. unfold App.unlockAudio in Hin.
    repeat case_match; apply list_elem_of_In in Hin; cbn in Hin;
      intuition discriminate.
  - split; [reflexivity |]. unfold App.toggleAudio in Hin.
    destruct (App.isConnected (App.session a)); [reflexivity |].
    cbn in Hin. apply not_elem_of_nil in Hin. contradiction.
  - exfalso. unfold App.on_resume_settled in Hin.
    repeat case_match; apply list_elem_of_In in Hin; cbn in Hin;
      intuition discriminate.
Qed.

Lemma filter_sent_nil (out : list Command) :
  (forall c, c ∈ out -> is_sent c = false) ->
  filter (fun c => is_sent c = true) out = [].
Proof.
  intros Hall. induction out as [| c out IH]; [reflexivity |].
  rewrite filter_cons, decide_False.
  - apply IH. intros c' Hin. apply Hall, list_elem_of_further, Hin.
  - rewrite (Hall c (list_elem_of_here _ _)). discriminate.
Qed.

(** X13. While the client is not connected nothing is sent over the
    socket, whatever happens: no click on the panel or in the picker, no
    gesture and no late socket event produces a command. *)
Theorem nothing_sent_while_disconnected env ev s :
  connected s = false ->
  filter (fun c => is_sent c = true) (handle env ev s).2 = [].
Proof.
  unfold connected. intros Hoff. apply filter_sent_nil. intros c Hin.
  destruct ev as [ev | l | t | | | q | | | | tab | i |]; cbn [handle] in Hin.
  - unfold on_socket in Hin. cbn [snd] in Hin.
    apply list_elem_of_fmap in Hin as (e & -> & He).
    destruct e as [ctx buf w | ctx | ctx | cmd | what]; try reflexivity.
    destruct (app_emit_connected env ev (app s) cmd He) as [_ Hon]. congruence.
  - apply not_elem_of_nil in Hin. contradiction.
  - apply not_elem_of_nil in Hin. contradiction.
  - unfold Panel.start_disabled, Panel.props_of in Hin. cbn in Hin.
    rewrite Hoff, andb_false_r in Hin. apply not_elem_of_nil in Hin. contradiction.
  - unfold Panel.stop_disabled, Panel.props_of in Hin. cbn in Hin.
    rewrite Hoff in Hin. cbn in Hin. rewrite andb_false_r in Hin.
    apply not_elem_of_nil in Hin. contradiction.
  - unfold Panel.quality_disabled, Panel.props_of in Hin. cbn in Hin.
    rewrite Hoff in Hin. cbn in Hin. apply not_elem_of_nil in Hin. contradiction.
  - unfold Panel.audio_disabled, Panel.props_of in Hin. cbn in Hin.
    rewrite Hoff in Hin. cbn in Hin. apply not_elem_of_nil in Hin. contradiction.
  - destruct (showSourcePicker s); apply not_elem_of_nil in Hin; contradiction.
  - unfold refreshSources, connected in Hin.
    destruct (showSourcePicker s && negb (isLoadingSources s));
      cbn in Hin; rewrite ?Hoff in Hin; apply not_elem_of_nil in Hin;
      contradiction.
  - destruct (showSourcePicker s); apply not_elem_of_nil in Hin; contradiction.
  - destruct (showSourcePicker s); [| apply not_elem_of_nil in Hin; contradiction].
    destruct (_ !! i); apply not_elem_of_nil in Hin; contradiction.
  - unfold handleSelectSource, connected in Hin.
    destruct (showSourcePicker s); [| apply not_elem_of_nil in Hin; contradiction].
    destruct (Picker.selectedSource (picker s)); cbn in Hin; rewrite ?Hoff in Hin;
      apply not_elem_of_nil in Hin; contradiction.
Qed.

Lemma nothing_sent_while_disconnected_witness :
  showSourcePicker cut_off_host = true
  /\ Picker.selectedSource (picker cut_off_host) = Some editor
  /\ filter (fun c => is_sent c = true)
       (handle (Spec.envAt 0 0) PickerShare cut_off_host).2 = [].
Proof.
  split; [reflexivity |]. split; [reflexivity |].
  apply (nothing_sent_while_disconnected (Spec.envAt 0 0) PickerShare
           cut_off_host).
  reflexivity.
Defined.

(** No handler of [App] is a sharing command. *)
Lemma socket_no_sharing_command env ev s c :
  c ∈ (on_socket env ev s).2 -> is_sharing_command c = false.
Proof.
  unfold on_socket. cbn [snd]. intros Hin.
  apply list_elem_of_fmap in Hin as (e & -> & _). reflexivity.
Qed.

(** X14. A stop-sharing command leaves the client only when it is
    connected, is the host and is itself the current sharer; a
    change-settings command only when it is connected, is the host and
    nobody is sharing. *)
Theorem stop_and_settings_need_role env ev s :
  (StopSharing ∈ (handle env ev s).2 ->
   connected s = true
   /\ App.isHost (App.session (app s)) = true
   /\ App.currentSharerId (App.session (app s))
      = App.clientId (App.session (app s)))
  /\ (forall p,
        ChangeSettings p ∈ (handle env ev s).2 ->
        connected s = true
        /\ App.isHost (App.session (app s)) = true
        /\ App.isSharing (App.session (app s)) = false).
Proof.
  unfold connected.
  destruct ev as [ev | l | t | | | q | | | | tab | i |]; cbn [handle];
    unfold Panel.share_buttons_rendered, Panel.start_disabled,
      Panel.stop_disabled, Panel.quality_disabled, Panel.audio_disabled,
      Panel.props_of, openSourcePicker, refreshSources, handleSelectSource,
      handleStopSharing, handleChangePreset, connected, JS.strict_eq;
    cbn;
    (split; [| intros p]); intros Hin;
    try (apply socket_no_sharing_command in Hin; discriminate);
    repeat case_match; simplify_eq;
    try (apply list_elem_of_fmap in Hin as (e & He & _); discriminate);
    try (apply list_elem_of_In in Hin; cbn in Hin; intuition discriminate);
    repeat match goal with
           | H : _ && _ = true |- _ => apply andb_true_iff in H as [? ?]
           | H : negb _ = true |- _ => apply negb_true_iff in H
           | H : _ || _ = false |- _ => apply orb_false_iff in H as [? ?]
           | H : negb _ = false |- _ => apply negb_false_iff in H
           | H : bool_decide _ = true |- _ => apply bool_decide_eq_true_1 in H
           end;
    repeat split; congruence.
Qed.

Lemma stop_and_settings_need_role_witness :
  App.isHost (App.session (app (AppUI.run host_changes_quality (init 0)).1)) = true.
Proof.
  apply (proj2 (stop_and_settings_need_role (Spec.envAt 0 0) (ClickQuality q4k30)
                  (AppUI.run host_changes_quality (init 0)).1) "4k30").
  vm_compute. apply list_elem_of_here.
Defined.

(** A participant that is not the host and has no picker open stays so
    under every event that does not make it the host, and sends no sharing
    command. *)
Lemma viewer_step env ev s :
  hosts ev = false ->
  App.isHost (App.session (app s)) = false ->
  showSourcePicker s = false ->
  App.isHost (App.session (app (handle env ev s).1)) = false
  /\ showSourcePicker (handle env ev s).1 = false
  /\ filter (fun c => is_sharing_command c = true) (handle env ev s).2 = [].
Proof.
  intros Hev Hhost Hclosed.
  assert (Hnone : forall out : list App.Effect,
             filter (fun c => is_sharing_command c = true) (map Other out) = []).
  { induction out as [| e out IH]; [reflexivity |].
    cbn [map]. rewrite filter_cons, decide_False by discriminate. exact IH. }
  destruct ev as [ev | l | t | | | q | | | | tab | i |]; cbn [handle];
    unfold Panel.share_buttons_rendered, Panel.quality_disabled,
      Panel.audio_disabled, Panel.props_of;
    cbn [Panel.isHost Panel.isConnected Panel.isSharing Panel.audioAvailable];
    rewrite ?Hhost, ?Hclosed, ?orb_true_r; cbn [andb negb fst snd];
    try (repeat split; assumption).
  - unfold on_socket. cbn [fst snd]. split; [| split; [| apply Hnone]].
    + replace (app _) with (App.handle env ev (app s)).1
        by (destruct ev; reflexivity).
      destruct (Extra.is_connected ev) eqn:Hc.
      * destruct ev; try discriminate. cbn in Hev. cbn [App.handle fst].
        unfold App.on_connected. rewrite Hev.
        destruct (App.is_sharing d); reflexivity.
      * destruct (AppExtra.handle_keeps_identity env ev (app s) Hc) as (_ & H & _).
        rewrite H. exact Hhost.
    + destruct ev; first [exact Hclosed | reflexivity].
  - destruct (negb _); cbn [fst snd]; [| repeat split; assumption].
    split; [| split; [exact Hclosed | apply Hnone]].
    cbn. unfold App.toggleAudio, App.ensureContext.
    repeat case_match; simplify_eq; cbn; exact Hhost.
Qed.

Lemma ui_run_cons env ev rest s :
  AppUI.run ((env, ev) :: rest) s
  = ((AppUI.run rest (handle env ev s).1).1,
     (handle env ev s).2 ++ (AppUI.run rest (handle env ev s).1).2).
Proof. reflexivity. Qed.

(** X15. A participant whom the server never declares host cannot start,
    stop or reconfigure sharing: from the mount on, through any sequence of
    socket events, clicks and gestures in which no [connected] event
    carries the host flag, the share buttons are not rendered, the picker
    never opens, and no get-sources, start-sharing, stop-sharing or
    change-settings command is sent. *)
Theorem viewer_sends_no_sharing_command t evs :
  forallb (fun e => negb (hosts e.2)) evs = true ->
  let r := AppUI.run evs (init t) in
  filter (fun c => is_sharing_command c = true) r.2 = []
  /\ showSourcePicker r.1 = false
  /\ Panel.share_buttons_rendered (Panel.props_of (app r.1)) = false.
Proof.
  cbv zeta.
  generalize (init t)
    (eq_refl : App.isHost (App.session (app (init t))) = false)
    (eq_refl : showSourcePicker (init t) = false).
  induction evs as [| [env ev] evs IH]; intros s Hhost Hclosed Hevs.
  - repeat split; assumption.
  - cbn [forallb snd] in Hevs. apply andb_true_iff in Hevs as [Hev Hevs].
    apply negb_true_iff in Hev.
    destruct (viewer_step env ev s Hev Hhost Hclosed) as (Hhost1 & Hclosed1 & Hout).
    destruct (IH _ Hhost1 Hclosed1 Hevs) as (Hrest & Hfinal).
    rewrite ui_run_cons. cbn [fst snd].
    rewrite filter_app, Hout, Hrest. split; [reflexivity | exact Hfinal].
Qed.

Lemma viewer_sends_no_sharing_command_witness :
  filter (fun c => is_sharing_command c = true)
    (AppUI.run guest_session (init 0)).2 = [].
Proof.
  apply (viewer_sends_no_sharing_command 0 guest_session).
  reflexivity.
Defined.

(** ** The source picker *)

(** X16. The three tabs of the picker: every tab shows a sublist of the
    sources in their order; the monitor and window tabs hold only sources
    of their type; the two counts add up to at most the count of the
    all-tab, and to exactly that count when every source is a monitor or a
    window. *)
Theorem picker_tabs_partition (sources : list Picker.Source) :
  (forall tab, sublist (Picker.filteredSources tab sources) sources)
  /\ Forall (fun s => Picker.src_type s = "monitor") (Picker.monitors sources)
  /\ Forall (fun s => Picker.src_type s = "window") (Picker.windows sources)
  /\ (length (Picker.monitors sources) + length (Picker.windows sources)
      <= length sources)%nat
  /\ (Forall (fun s => Picker.src_type s = "monitor"
                       \/ Picker.src_type s = "window") sources ->
      (length (Picker.monitors sources) + length (Picker.windows sources)
       = length sources)%nat).
Proof.
  unfold Picker.monitors, Picker.windows.
  split; [| split; [| split]].
  - intros []; cbn; [reflexivity | apply sublist_filter | apply sublist_filter].
  - apply Forall_forall. intros s Hs. apply list_elem_of_filter in Hs. tauto.
  - apply Forall_forall. intros s Hs. apply list_elem_of_filter in Hs. tauto.
  - assert (Hcount : forall l : list Picker.Source,
               (length (filter (fun s => Picker.src_type s = "monitor") l)
                + length (filter (fun s => Picker.src_type s = "window") l)
                <= length l)%nat
               /\ (Forall (fun s => Picker.src_type s = "monitor"
                                    \/ Picker.src_type s = "window") l ->
                   (length (filter (fun s => Picker.src_type s = "monitor") l)
                    + length (filter (fun s => Picker.src_type s = "window") l)
                    = length l)%nat)).
    { induction l as [| s l [IHle IHeq]]; [split; [cbn; lia | reflexivity] |].
      rewrite !filter_cons.
      destruct (decide (Picker.src_type s = "monitor")) as [Hm | Hm];
        destruct (decide (Picker.src_type s = "window")) as [Hw | Hw];
        try (rewrite Hm in Hw; discriminate); cbn [length]; split; try lia.
      - intros Hall. inversion Hall; subst. specialize (IHeq H2). lia.
      - intros Hall. inversion Hall; subst. specialize (IHeq H2). lia.
      - intros Hall. inversion Hall; subst. tauto. }
    split; apply Hcount.
Qed.

Lemma picker_tabs_partition_witness :
  (length (Picker.monitors [monitor1; editor])
   + length (Picker.windows [monitor1; editor]) = 2)%nat.
Proof.
  apply (proj2 (proj2 (proj2 (proj2
           (picker_tabs_partition [monitor1; editor]))))).
  constructor; [left; reflexivity |].
  constructor; [right; reflexivity | constructor].
Defined.

(** ** The log box *)

Lemma log_after_calls t calls :
  App.messages (App.session (Spec.addMessages calls (App.init t)))
  = JS.slice_last 50 (map Spec.entry calls).
Proof.
  induction calls as [| call calls IH] using rev_ind; [reflexivity |].
  rewrite AppSpec.addMessages_snoc.
  destruct call as [[env txt] ty]. cbn [fst snd].
  rewrite AppSpec.addMessage_messages, IH, AppSpec.slice_last_snoc by lia.
  rewrite map_app. reflexivity.
Qed.

(** Keeping the last 50 and then the last 5 keeps the last 5. *)
Lemma slice_last_slice_last {A : Type} (n m : nat) (l : list A) :
  (n <= m)%nat -> JS.slice_last n (JS.slice_last m l) = JS.slice_last n l.
Proof.
  intros Hnm. unfold JS.slice_last. rewrite length_drop, drop_drop.
  f_equal. lia.
Qed.

(** X17. The log box of the control panel shows the texts of the five
    most recent messages, in the order they were added, however many were
    added before: the trimming of the log to 50 entries never hides one of
    the last five. *)
Theorem log_box_shows_last_five t calls :
  Panel.shown_messages
    (Panel.props_of (Spec.addMessages calls (App.init t)))
  = drop (length calls - 5) (map (fun call => call.1.2) calls).
Proof.
  unfold Panel.shown_messages, Panel.props_of. cbn [Panel.messages].
  rewrite log_after_calls, slice_last_slice_last by lia.
  unfold JS.slice_last. rewrite length_map, <- skipn_map, map_map. reflexivity.
Qed.

End UIExtra.

(** * Properties of the still-image view *)

Module JpegExtra.
Import JpegView.

Lemma reconcile_fields p s :
  scheduled (reconcile p s) = scheduled s
  /\ frameRequestRef (reconcile p s) = frameRequestRef s
  /\ lastProps (reconcile p s) = lastProps s
  /\ requests (reconcile p s) = requests s
  /\ loading (reconcile p s) = loading s
  /\ loads (reconcile p s) = loads s.
Proof.
  unfold reconcile. destruct (truthy (currentFrame p)); [| repeat split].
  destruct (canvasRef s); repeat split.
Qed.

Lemma reconcile_canvas p s :
  (forall c, canvasRef s = Some c -> (c < length (canvases s))%nat) ->
  (canvasRef (reconcile p s) = None <-> truthy (currentFrame p) = false)
  /\ (forall c, canvasRef (reconcile p s) = Some c ->
                (c < length (canvases (reconcile p s)))%nat).
Proof.
  intros Hbound. unfold reconcile.
  destruct (truthy (currentFrame p)) eqn:Ht.
  - destruct (canvasRef s) as [c |] eqn:Hc; cbn.
    + rewrite Hc. split; [split; discriminate | exact Hbound].
    + split; [split; discriminate |].
      intros c Heq. inversion Heq. rewrite length_app. cbn. lia.
  - cbn. split; [tauto | discriminate].
Qed.

Lemma cancelRequest_fields s :
  canvasRef (cancelRequest s).1 = canvasRef s
  /\ canvases (cancelRequest s).1 = canvases s
  /\ lastProps (cancelRequest s).1 = lastProps s
  /\ requests (cancelRequest s).1 = requests s.
Proof. unfold cancelRequest. destruct (frameRequestRef s); repeat split. Qed.

Lemma frameEffect_fields p s :
  canvasRef (frameEffect p s).1 = canvasRef s
  /\ canvases (frameEffect p s).1 = canvases s
  /\ lastProps (frameEffect p s).1 = lastProps s.
Proof.
  unfold frameEffect. destruct (currentFrame p); [| repeat split].
  destruct (truthy _); repeat split.
Qed.

Lemma frameEffect_request p s :
  scheduled s = [] ->
  scheduled (frameEffect p s).1 = []
  \/ exists r f,
       scheduled (frameEffect p s).1 = [(r, f)]
       /\ frameRequestRef (frameEffect p s).1 = Some r
       /\ currentFrame p = Some f.
Proof.
  intros Hnone. unfold frameEffect.
  destruct (currentFrame p) as [f |]; [| left; exact Hnone].
  destruct (truthy _); [| left; exact Hnone].
  right. exists (S (requests s)), f. cbn. rewrite Hnone. repeat split.
Qed.

Lemma clearEffect_fields p s :
  canvasRef (clearEffect p s).1 = canvasRef s
  /\ length (canvases (clearEffect p s).1) = length (canvases s)
  /\ lastProps (clearEffect p s).1 = lastProps s
  /\ scheduled (clearEffect p s).1 = scheduled s
  /\ frameRequestRef (clearEffect p s).1 = frameRequestRef s.
Proof.
  unfold clearEffect. destruct (isSharing p); [repeat split |].
  destruct (canvasRef s) as [c |] eqn:Hc; [| repeat split; exact Hc].
  destruct (canvases s !! c); [| repeat split; exact Hc].
  unfold paint. cbn. rewrite length_insert. repeat split. exact Hc.
Qed.

Lemma clear_if_fields (b : bool) p s :
  let s' := (if b then clearEffect p s else (s, [])).1 in
  canvasRef s' = canvasRef s
  /\ length (canvases s') = length (canvases s)
  /\ scheduled s' = scheduled s
  /\ frameRequestRef s' = frameRequestRef s.
Proof.
  destruct b; cbn [fst]; [| repeat split].
  destruct (clearEffect_fields p s) as (? & ? & _ & ? & ?). repeat split; assumption.
Qed.

Lemma cancelRequest_none s :
  (scheduled s = []
   \/ exists r f, scheduled s = [(r, f)] /\ frameRequestRef s = Some r) ->
  scheduled (cancelRequest s).1 = [].
Proof.
  unfold cancelRequest. intros [Hn | (r & f & Hs & Hr)].
  - destruct (frameRequestRef s); cbn; rewrite Hn; reflexivity.
  - rewrite Hr. cbn. rewrite Hs. cbn.
    rewrite decide_False by (cbn; congruence). reflexivity.
Qed.

(** A commit keeps the component well formed. *)
Lemma commit_well_formed first p s :
  well_formed s -> (first = true -> scheduled s = []) ->
  well_formed (commit first p s).1.
Proof.
  intros (Hsched & Hcanvas & Hbound) Hfirst.
  destruct (reconcile_fields p s) as (Rs & Rr & Rl & _).
  destruct (reconcile_canvas p s Hbound) as (Rc & Rb).
  unfold commit. cbv zeta. cbn [fst].
  set (s0 := reconcile p s) in *.
  set (sharingChanged :=
         first || negb (Bool.eqb (isSharing p) (isSharing (lastProps s0)))).
  clearbody sharingChanged.
  assert (Hreq0 : scheduled s0 = []
                  \/ exists r f, scheduled s0 = [(r, f)]
                                 /\ frameRequestRef s0 = Some r).
  { rewrite Rs, Rr. destruct Hsched as [H | (r & f & H & H' & _)];
      [left; exact H | right; exists r, f; split; assumption]. }
  destruct first;
    [| destruct (bool_decide (currentFrame p = currentFrame (lastProps s0)))
         eqn:Hsame];
    cbn [orb andb negb fst snd].
  - destruct (clear_if_fields sharingChanged p (frameEffect p s0).1)
      as (C2 & L2 & S2 & F2).
    destruct (frameEffect_fields p s0) as (C1 & L1 & _).
    split; [| split].
    + cbn [set_lastProps scheduled frameRequestRef lastProps]. rewrite S2, F2.
      apply frameEffect_request. rewrite Rs. apply Hfirst. reflexivity.
    + cbn [set_lastProps canvasRef lastProps]. rewrite C2, C1. exact Rc.
    + cbn [set_lastProps canvasRef canvases]. rewrite C2, L2, C1, L1. exact Rb.
  - destruct (clear_if_fields sharingChanged p s0) as (C2 & L2 & S2 & F2).
    apply bool_decide_eq_true_1 in Hsame.
    split; [| split].
    + cbn [set_lastProps scheduled frameRequestRef lastProps].
      rewrite S2, F2, Rs, Rr, Hsame, Rl. exact Hsched.
    + cbn [set_lastProps canvasRef lastProps]. rewrite C2. exact Rc.
    + cbn [set_lastProps canvasRef canvases]. rewrite C2, L2. exact Rb.
  - destruct (clear_if_fields sharingChanged p
                (frameEffect p (cancelRequest s0).1).1) as (C2 & L2 & S2 & F2).
    destruct (frameEffect_fields p (cancelRequest s0).1) as (C1 & L1 & _).
    destruct (cancelRequest_fields s0) as (C0 & L0 & _).
    split; [| split].
    + cbn [set_lastProps scheduled frameRequestRef lastProps]. rewrite S2, F2.
      apply frameEffect_request, cancelRequest_none, Hreq0.
    + cbn [set_lastProps canvasRef lastProps]. rewrite C2, C1, C0. exact Rc.
    + cbn [set_lastProps canvasRef canvases]. rewrite C2, L2, C1, L1, C0, L0.
      exact Rb.
Qed.

Lemma renderAll_fields frames : forall s,
  canvasRef (renderAll frames s).1 = canvasRef s
  /\ canvases (renderAll frames s).1 = canvases s
  /\ lastProps (renderAll frames s).1 = lastProps s
  /\ scheduled (renderAll frames s).1 = scheduled s
  /\ frameRequestRef (renderAll frames s).1 = frameRequestRef s.
Proof.
  induction frames as [| f frames IH]; intros s; [repeat split |].
  cbn [renderAll fst].
  destruct (IH (renderFrame f s).1) as (-> & -> & -> & -> & ->).
  unfold renderFrame. destruct (canvasRef s) eqn:Hc; [| repeat split; exact Hc].
  destruct (truthy _); repeat split; exact Hc.
Qed.

Lemma handle_well_formed ev s : well_formed s -> well_formed (handle ev s).1.
Proof.
  intros Hwf. destruct ev as [p | | l w h | l]; cbn [handle].
  - apply commit_well_formed; [exact Hwf | discriminate].
  - destruct Hwf as (_ & Hcanvas & Hbound). unfold animationFrame.
    match goal with
    | |- well_formed (renderAll ?fs ?s0).1 =>
        destruct (renderAll_fields fs s0) as (C & V & L & S & F)
    end.
    split; [left; rewrite S; reflexivity |].
    split.
    + rewrite C, L. exact Hcanvas.
    + rewrite C, V. exact Hbound.
  - destruct Hwf as (Hsched & Hcanvas & Hbound). unfold imageLoaded.
    destruct (find_load l s) as [ld |]; [| split; [| split]; assumption].
    cbn [forget_load canvases].
    destruct (canvases s !! target ld) as [v |]; cbn [fst].
    + unfold paint. split; [exact Hsched |]. split; [exact Hcanvas |].
      cbn. intros c Hc. rewrite length_insert. apply Hbound, Hc.
    + split; [| split]; assumption.
  - exact Hwf.
Qed.

Lemma reachable_well_formed s : reachable s -> well_formed s.
Proof.
  induction 1 as [p | ev s _ IH].
  - apply (commit_well_formed true p unmounted); [| reflexivity].
    split; [left; reflexivity |]. split; [split; reflexivity | discriminate].
  - apply handle_well_formed, IH.
Qed.

(** X18. In every state of the mounted view at most one animation-frame
    callback is outstanding, and it carries the frame of the last commit:
    a frame that is replaced before the animation frame comes is never
    decoded. When the animation frame comes at most one image load starts,
    for the current frame and into the mounted canvas. *)
Theorem one_request_for_current_frame s :
  reachable s ->
  (length (scheduled s) <= 1)%nat
  /\ (forall r f,
        (r, f) ∈ scheduled s ->
        frameRequestRef s = Some r /\ currentFrame (lastProps s) = Some f)
  /\ (length (load_starts (animationFrame s).2) <= 1)%nat
  /\ (forall l c f,
        (l, c, f) ∈ load_starts (animationFrame s).2 ->
        currentFrame (lastProps s) = Some f /\ canvasRef s = Some c).
Proof.
  intros Hreach.
  destruct (reachable_well_formed s Hreach)
    as ([Hnone | (r & f & Hsched & Href & Hframe)] & _).
  - unfold animationFrame. rewrite Hnone. cbn.
    repeat split; try lia; intros;
      match goal with
      | H : _ ∈ [] |- _ => apply not_elem_of_nil in H; contradiction
      end.
  - unfold animationFrame. rewrite Hsched. cbn [map snd renderAll].
    split; [cbn; lia |]. split.
    { intros r' f' Hin. apply list_elem_of_singleton in Hin.
      inversion Hin; subst. split; assumption. }
    unfold renderFrame. cbn [canvasRef fst snd].
    destruct (canvasRef s) as [c |] eqn:Hc; cbn [app load_starts omap list_omap].
    + destruct (truthy (Some f)); cbn; split; try lia.
      * intros l c' f' Hin. apply list_elem_of_singleton in Hin.
        inversion Hin; subst. split; [exact Hframe | reflexivity].
      * intros ? ? ? Hin. apply not_elem_of_nil in Hin. contradiction.
    + cbn. split; [lia |].
      intros ? ? ? Hin. apply not_elem_of_nil in Hin. contradiction.
Qed.

Lemma two_frames_reachable : reachable two_frames.
Proof. unfold two_frames. cbn [run fst]. apply reachable_step, reachable_mount. Qed.

Lemma one_request_for_current_frame_witness :
  load_starts (animationFrame two_frames).2
  = [(0%nat, 0%nat, "data:image/jpeg;base64,P2")]
  /\ (length (scheduled two_frames) <= 1)%nat.
Proof.
  split; [reflexivity |].
  apply (one_request_for_current_frame two_frames two_frames_reachable).
Defined.

(** X19. Rendering the mounted view again with the frame and the sharing
    flag it already has does nothing: no request, no decode, no change of
    state. A frame event that repeats the payload on display is not drawn
    a second time. *)
Theorem same_props_do_nothing s :
  reachable s -> update (lastProps s) s = (s, []).
Proof.
  intros Hreach.
  destruct (reachable_well_formed s Hreach) as (_ & Hcanvas & _).
  unfold update, commit. cbv zeta.
  assert (Hrec : reconcile (lastProps s) s = s).
  { unfold reconcile. destruct (truthy (currentFrame (lastProps s))) eqn:Ht.
    - destruct (canvasRef s) eqn:Hc; [reflexivity |].
      destruct Hcanvas as [H _]. specialize (H eq_refl). discriminate.
    - pose proof (proj2 Hcanvas eq_refl) as Hn.
      destruct s; cbn in Hn; subst; reflexivity. }
  rewrite Hrec. rewrite bool_decide_eq_true_2 by reflexivity.
  rewrite Bool.eqb_reflx. cbn. destruct s as [? ? []]; reflexivity.
Qed.

Lemma same_props_do_nothing_witness :
  update (showing "data:image/jpeg;base64,P2") two_frames = (two_frames, []).
Proof.
  apply (same_props_do_nothing two_frames two_frames_reachable).
Defined.

Lemma find_after_forget (l1 l2 : nat) (lds : list Load) :
  l1 <> l2 ->
  list_find (fun ld => load_id ld = l2) (filter (fun ld => load_id ld ≠ l1) lds)
    ≫= (fun r => Some r.2)
  = list_find (fun ld => load_id ld = l2) lds ≫= (fun r => Some r.2).
Proof.
  intros Hne. induction lds as [| ld lds IH]; [reflexivity |].
  rewrite filter_cons. cbn [list_find].
  destruct (decide (load_id ld ≠ l1)) as [Hkeep | Hdrop].
  - cbn [list_find]. destruct (decide (load_id ld = l2)); [reflexivity |].
    destruct (list_find _ (filter _ lds)) as [[i x] |];
      destruct (list_find _ lds) as [[j y] |]; cbn in *; congruence.
  - destruct (decide (load_id ld = l2)) as [Heq | _].
    + exfalso. apply Hdrop. congruence.
    + rewrite IH. destruct (list_find _ lds) as [[j y] |]; reflexivity.
Qed.

(** A completed decode paints the canvas its closure captured, at the size
    of the image, and leaves the other decodes under way. *)
Lemma imageLoaded_paints l w h s ld v :
  find_load l s = Some ld ->
  canvases s !! target ld = Some v ->
  let r := imageLoaded l w h s in
  canvases r.1 !! target ld
  = Some {| cwidth := w; cheight := h; painted := Some (src ld) |}
  /\ length (canvases r.1) = length (canvases s)
  /\ r.2 = [Drawn (target ld) (src ld) w h]
  /\ forall l', l' <> l -> find_load l' r.1 = find_load l' s.
Proof.
  intros Hfind Hcanvas. unfold imageLoaded. rewrite Hfind.
  cbn [forget_load canvases]. rewrite Hcanvas. cbn [fst snd].
  unfold paint. cbn [canvases].
  assert (Hlt : (target ld < length (canvases s))%nat)
    by (apply lookup_lt_is_Some; eauto).
  split; [| split; [apply length_insert | split; [reflexivity |]]].
  - rewrite list_lookup_insert_eq by exact Hlt. f_equal.
    destruct (cwidth v =? w) eqn:Hw; destruct (cheight v =? h) eqn:Hh;
      cbn [negb orb cwidth cheight]; try reflexivity.
    apply Z.eqb_eq in Hw, Hh. subst. reflexivity.
  - intros l' Hne. unfold find_load. cbn [loading].
    apply find_after_forget. congruence.
Qed.

(** X20. When two decodes into the same canvas are under way, the canvas
    ends up with the image whose decode completes last, at that image's
    size, whichever of the two was requested first: the order of
    completion decides what is on display. *)
Theorem last_completed_decode_wins s ld1 ld2 w1 h1 w2 h2 v :
  find_load (load_id ld1) s = Some ld1 ->
  find_load (load_id ld2) s = Some ld2 ->
  load_id ld1 <> load_id ld2 ->
  target ld2 = target ld1 ->
  canvases s !! target ld1 = Some v ->
  canvases (run [ImageLoaded (load_id ld1) w1 h1;
                 ImageLoaded (load_id ld2) w2 h2] s).1 !! target ld1
  = Some {| cwidth := w2; cheight := h2; painted := Some (src ld2) |}
  /\ canvases (run [ImageLoaded (load_id ld2) w2 h2;
                    ImageLoaded (load_id ld1) w1 h1] s).1 !! target ld1
     = Some {| cwidth := w1; cheight := h1; painted := Some (src ld1) |}.
Proof.
  assert (Hgen : forall la lb wa ha wb hb,
             find_load (load_id la) s = Some la ->
             find_load (load_id lb) s = Some lb ->
             load_id la <> load_id lb ->
             target lb = target la ->
             canvases s !! target la = Some v ->
             canvases (run [ImageLoaded (load_id la) wa ha;
                            ImageLoaded (load_id lb) wb hb] s).1 !! target la
             = Some {| cwidth := wb; cheight := hb; painted := Some (src lb) |}).
  { intros la lb wa ha wb hb Ha Hb Hne Hsame Hv.
    cbn [run handle fst].
    destruct (imageLoaded_paints (load_id la) wa ha s la v Ha Hv)
      as (Hpa & _ & _ & Hkeep).
    set (s1 := (imageLoaded (load_id la) wa ha s).1) in *.
    assert (Hb1 : find_load (load_id lb) s1 = Some lb)
      by (rewrite Hkeep by congruence; exact Hb).
    rewrite <- Hsame in Hpa.
    destruct (imageLoaded_paints (load_id lb) wb hb s1 lb _ Hb1 Hpa)
      as (Hpb & _).
    rewrite <- Hsame. exact Hpb. }
  intros H1 H2 Hne Hsame Hv. split.
  - apply Hgen; assumption.
  - rewrite <- Hsame. apply Hgen; try assumption; congruence.
Qed.

Lemma last_completed_decode_wins_witness :
  canvases (run [ImageLoaded 1 640 480; ImageLoaded 0 640 480] two_decodes).1
    !! 0%nat
  = Some {| cwidth := 640; cheight := 480;
            painted := Some "data:image/jpeg;base64,P2" |}.
Proof.
  exact (proj2 (last_completed_decode_wins two_decodes
                  {| load_id := 0; target := 0;
                     src := "data:image/jpeg;base64,P2" |}
                  {| load_id := 1; target := 0;
                     src := "data:image/jpeg;base64,P3" |}
                  640 480 640 480 blank eq_refl eq_refl ltac:(discriminate)
                  eq_refl eq_refl)).
Defined.

(** X21. When the view leaves the tree its animation-frame request is
    cancelled, so no decode starts afterwards; the decodes already under
    way are not cancelled and stay in flight. *)
Theorem unmount_cancels_request s :
  reachable s ->
  scheduled (unmount s).1 = []
  /\ canvasRef (unmount s).1 = None
  /\ load_starts (animationFrame (unmount s).1).2 = []
  /\ loading (unmount s).1 = loading s.
Proof.
  intros Hreach.
  destruct (reachable_well_formed s Hreach) as (Hsched & _).
  assert (Hreq : scheduled s = []
                 \/ exists r f, scheduled s = [(r, f)] /\ frameRequestRef s = Some r).
  { destruct Hsched as [H | (r & f & H & H' & _)];
      [left; exact H | right; exists r, f; split; assumption]. }
  pose proof (cancelRequest_none s Hreq) as Hnone.
  assert (Hnone2 : scheduled (cancelRequest (cancelRequest s).1).1 = []).
  { apply cancelRequest_none. left. exact Hnone. }
  assert (Hload : loading (cancelRequest (cancelRequest s).1).1 = loading s).
  { unfold cancelRequest. destruct (frameRequestRef s) eqn:Hr; cbn; rewrite ?Hr;
      reflexivity. }
  unfold unmount. cbn [fst]. unfold reconcile.
  cbn [truthy currentFrame scheduled canvasRef loading].
  repeat split; try assumption.
  unfold animationFrame. cbn [scheduled]. rewrite Hnone2. reflexivity.
Qed.

Lemma unmount_cancels_request_witness :
  scheduled two_frames = [(2%nat, "data:image/jpeg;base64,P2")]
  /\ scheduled (unmount two_frames).1 = [].
Proof.
  split; [reflexivity |].
  apply (unmount_cancels_request two_frames two_frames_reachable).
Defined.

End JpegExtra.

(** * Further properties of the continuous-bitstream view *)

Module H264Extra.
Import H264View.

(** The video element in the ref was mounted before. *)
Lemma commit_video_bound first env p s :
  (forall v, videoRef s = Some v -> (v < videos s)%nat) ->
  let s' := (commit first env p s).1 in
  (forall v, videoRef s' = Some v -> (v < videos s')%nat)
  /\ (videos s <= videos s')%nat.
Proof.
  destruct s as [jm vr rd fc [ls lf] cn lv vs], p as [sh cf].
  cbn. intros Hbound.
  unfold commit, reconcile, initEffect, cleanupEffect, feedEffect.
  cbn.
  repeat (case_match; cbn in *; simplify_eq);
    (split; [intros v Hv |]; cbn in *; simplify_eq; try lia;
     specialize (Hbound _ eq_refl); lia).
Qed.

Lemma reachable_video_bound s :
  reachable s -> forall v, videoRef s = Some v -> (v < videos s)%nat.
Proof.
  induction 1 as [env p | env p s _ IH].
  - apply (commit_video_bound true env p unmounted). discriminate.
  - apply (commit_video_bound false env p s IH).
Qed.

(** X22. Nothing is fed while the view is rendered as not sharing: in a
    commit with the sharing flag off no decoder is constructed and no
    payload is fed, whatever frame the commit carries. A frame that arrives
    after sharing stopped does not reach a decoder. *)
Theorem nothing_fed_when_not_sharing env cf s :
  reachable s ->
  let r := update env {| isSharing := false; currentFrame := cf |} s in
  feeds r.2 = [] /\ creations r.2 = [] /\ jmuxerRef r.1 = None.
Proof.
  intros Hreach.
  destruct (H264Spec.reachable_decoder_invariant s Hreach) as [_ Hstop].
  destruct s as [jm vr rd fc [ls lf] cn lv vs].
  cbn in Hstop.
  unfold update, commit, reconcile, initEffect, cleanupEffect, feedEffect.
  cbn.
  destruct ls; [| rewrite (Hstop eq_refl) in *];
    repeat (case_match; cbn in *; simplify_eq); repeat split.
Qed.

Lemma nothing_fed_when_not_sharing_witness :
  feeds (update envOk {| isSharing := false; currentFrame := Some (au 2 "AU2") |}
           decoding).2 = [].
Proof.
  apply (nothing_fed_when_not_sharing envOk (Some (au 2 "AU2")) decoding
           H264Spec.decoding_reachable).
Defined.

(** X23. A presentation reset during sharing replaces the video element
    but not the decoder: when the frame is cleared while the sharing flag
    stays on and a new frame arrives, the view mounts a new video element,
    while the decoder, constructed on the previous element, is neither
    destroyed nor constructed again and goes on receiving the payloads. *)
Theorem decoder_survives_frame_reset env1 env2 f s j v :
  reachable s ->
  jmuxerRef s = Some j ->
  videoRef s = Some v ->
  let r1 := update env1 {| isSharing := true; currentFrame := None |} s in
  let r2 := update env2 {| isSharing := true; currentFrame := Some f |} r1.1 in
  videoRef r1.1 = None
  /\ (exists v', videoRef r2.1 = Some v' /\ v' <> v)
  /\ jmuxerRef r2.1 = Some j
  /\ live r2.1 = [j]
  /\ r1.2 = []
  /\ creations r2.2 = []
  /\ feeds r2.2 = expected_feeds j [(env2, f)].
Proof.
  intros Hreach Hj Hv.
  pose proof (reachable_video_bound s Hreach v Hv) as Hlt.
  destruct (H264Spec.reachable_decoder_invariant s Hreach) as [Hlive Hstop].
  destruct s as [jm vr rd fc [ls lf] cn lv vs].
  cbn in *. subst jm vr. unfold owned in Hlive. cbn in Hlive. subst lv.
  destruct ls; [| specialize (Hstop eq_refl); discriminate].
  unfold update, commit, reconcile, initEffect, cleanupEffect, feedEffect,
    expected_feeds, payload.
  cbn.
  destruct lf as [g |]; cbn;
    destruct (truthy_image f) as [b64 |]; cbn;
    try destruct (atob env2 b64) as [bytes |]; cbn;
    try destruct (feedThrows env2); cbn;
    (split; [reflexivity |];
     split; [exists vs; split; [reflexivity | lia] |];
     repeat split; reflexivity).
Qed.

Lemma decoder_survives_frame_reset_witness :
  jmuxerRef
    (update envOk {| isSharing := true; currentFrame := Some (au 2 "AU2") |}
       (update envOk {| isSharing := true; currentFrame := None |}
          decoding).1).1 = Some 0%nat.
Proof.
  apply (decoder_survives_frame_reset envOk envOk (au 2 "AU2") decoding
           0%nat 0%nat H264Spec.decoding_reachable eq_refl eq_refl).
Defined.

End H264Extra.
